(** * druid web: the serial session of [CrowConnection] and the script uploads

    A shallow embedding of [src/druid.js]: the class [CrowConnection]
    (lines 6-138) and the three upload routines of [DruidApp]
    ([runScript], [uploadScript], [uploadFileFromDrop]).

    The asynchronous methods are written in a small state-and-exception
    monad over a [World]: the global [druid] object, the trace of everything
    the code does to its surroundings (platform calls, observer callbacks,
    console and log output), and the read loops that are suspended in
    [await this.reader.read()].  How the platform answers a call (a promise
    that resolves or rejects) is an argument, [Env].

    A method runs from its call to its return with no other method
    interleaved at its awaits.  The interleaving the code is written for is
    modelled: the read loop runs beside the methods, one turn for each
    [read()] the platform settles, and a [reader.cancel()] ends the loops
    that wait on that reader.  An observer is the recorder of the trace: it
    returns normally.

    The page around the session comes after the uploads: the console with
    its history, its editor and its textarea, what the observers of the
    page show, the drops, the scripts of the bowery, and the name of the
    script.  These methods run over a [Desk], the [World] and the fields of
    [DruidApp] and of the page that they read and write. *)

From Stdlib Require Import String Ascii List Bool Arith Lia ZArith DecimalString.
Import ListNotations.
Local Open Scope string_scope.
Local Open Scope list_scope.

(** ** Text *)

Definition LF : string := String "010"%char EmptyString.
Definition CRLF : string := String "013"%char (String "010"%char EmptyString).

(** The JS literal ['\\n'] of [uploadFileFromDrop]: a backslash and the
    letter n. *)
Definition BACKSLASH_N : string := String "092"%char (String "n"%char EmptyString).

Fixpoint chars (s : string) : list string :=
  match s with
  | EmptyString => []
  | String c s' => String c EmptyString :: chars s'
  end.

(** [split_from sep skip acc s]: [acc] is the piece being collected, [skip]
    the number of characters of a matched separator still to be passed. *)
Fixpoint split_from (sep : string) (skip : nat) (acc s : string) : list string :=
  match s with
  | EmptyString => [acc]
  | String c s' =>
      match skip with
      | S k => split_from sep k acc s'
      | O =>
          if prefix sep s
          then acc :: split_from sep (String.length sep - 1) EmptyString s'
          else split_from sep 0 (acc ++ String c EmptyString) s'
      end
  end.

(** [String.prototype.split] with a string separator and no limit. *)
Definition split (sep s : string) : list string :=
  match sep with
  | EmptyString => chars s
  | _ => split_from sep 0 EmptyString s
  end.

(** ** Handles, platform answers, effects *)

Definition Port := nat.
Definition Reader := nat.
Definition Writer := nat.

(** A promise of the platform either resolves or rejects with an error,
    of which the code only ever reads [message]. *)
Inductive outcome (A : Type) : Type :=
| Resolved (a : A)
| Rejected (message : string).
Arguments Resolved {A} a.
Arguments Rejected {A} message.

(** The answers of the platform during one call of a method. *)
Record Env : Type := {
  requestPort_ : outcome Port;      (* navigator.serial.requestPort(...) *)
  open_ : outcome unit;             (* port.open(...) *)
  cancel_ : outcome unit;           (* reader.cancel() *)
  readableClosed_ : outcome unit;   (* the promise readableStreamClosed *)
  close_ : outcome unit;            (* writer.close() *)
  writableClosed_ : outcome unit;   (* the promise writableStreamClosed *)
  portClose_ : outcome unit;        (* port.close() *)
  write_ : outcome unit             (* writer.write(data) *)
}.

Inductive Effect : Type :=
| RequestPort
| PortOpen (p : Port)
| ReaderCancel (r : Reader)
| AwaitReadableClosed (p : Port)
| WriterClose (w : Writer)
| AwaitWritableClosed (p : Port)
| PortClose (p : Port)
| WriterWrite (w : Writer) (data : string)
| ConnectionChange (connected : bool) (reason : option string)
| DataReceived (chunk : string)
| ConsoleError (label message : string)
| OutputText (text : string)
| Delay (ms : nat)
| ReadDone (r : Reader).  (* a read loop saw [done] and left through [break] *)

(** ** The session object *)

Record CrowConnection : Type := {
  port : option Port;
  reader : option Reader;
  writer : option Writer;
  isConnected : bool;
  readableStreamClosed : option Port;  (* the pipe promise of that port *)
  writableStreamClosed : option Port;
  onDataReceived : bool;               (* null, or an observer *)
  onConnectionChange : bool;
  shouldReconnect : option bool        (* undefined until a read fault *)
}.

(** [constructor()], lines 7-16. *)
Definition new_CrowConnection : CrowConnection :=
  {| port := None; reader := None; writer := None; isConnected := false;
     readableStreamClosed := None; writableStreamClosed := None;
     onDataReceived := false; onConnectionChange := false;
     shouldReconnect := None |}.

Definition set_port v c :=
  {| port := v; reader := reader c; writer := writer c;
     isConnected := isConnected c;
     readableStreamClosed := readableStreamClosed c;
     writableStreamClosed := writableStreamClosed c;
     onDataReceived := onDataReceived c;
     onConnectionChange := onConnectionChange c;
     shouldReconnect := shouldReconnect c |}.

Definition set_reader v c :=
  {| port := port c; reader := v; writer := writer c;
     isConnected := isConnected c;
     readableStreamClosed := readableStreamClosed c;
     writableStreamClosed := writableStreamClosed c;
     onDataReceived := onDataReceived c;
     onConnectionChange := onConnectionChange c;
     shouldReconnect := shouldReconnect c |}.

Definition set_writer v c :=
  {| port := port c; reader := reader c; writer := v;
     isConnected := isConnected c;
     readableStreamClosed := readableStreamClosed c;
     writableStreamClosed := writableStreamClosed c;
     onDataReceived := onDataReceived c;
     onConnectionChange := onConnectionChange c;
     shouldReconnect := shouldReconnect c |}.

Definition set_isConnected v c :=
  {| port := port c; reader := reader c; writer := writer c;
     isConnected := v;
     readableStreamClosed := readableStreamClosed c;
     writableStreamClosed := writableStreamClosed c;
     onDataReceived := onDataReceived c;
     onConnectionChange := onConnectionChange c;
     shouldReconnect := shouldReconnect c |}.

Definition set_readableStreamClosed v c :=
  {| port := port c; reader := reader c; writer := writer c;
     isConnected := isConnected c;
     readableStreamClosed := v;
     writableStreamClosed := writableStreamClosed c;
     onDataReceived := onDataReceived c;
     onConnectionChange := onConnectionChange c;
     shouldReconnect := shouldReconnect c |}.

Definition set_writableStreamClosed v c :=
  {| port := port c; reader := reader c; writer := writer c;
     isConnected := isConnected c;
     readableStreamClosed := readableStreamClosed c;
     writableStreamClosed := v;
     onDataReceived := onDataReceived c;
     onConnectionChange := onConnectionChange c;
     shouldReconnect := shouldReconnect c |}.

Definition set_shouldReconnect v c :=
  {| port := port c; reader := reader c; writer := writer c;
     isConnected := isConnected c;
     readableStreamClosed := readableStreamClosed c;
     writableStreamClosed := writableStreamClosed c;
     onDataReceived := onDataReceived c;
     onConnectionChange := onConnectionChange c;
     shouldReconnect := v |}.

(** [DruidApp], as far as the uploads read it: the session, the editor
    (null, or an editor holding a text) and the script name. *)
Record DruidApp : Type := {
  crow : CrowConnection;
  editor : option string;
  scriptName : string;
  scriptModified : bool
}.

(** One entry of the trace: what was done, and the session as it was then. *)
Record Obs : Type := { during : CrowConnection; what : Effect }.

Record World : Type := {
  druid : DruidApp;
  trace : list Obs;       (* oldest first *)
  loops : list Reader;    (* read loops suspended in read() of that reader *)
  fresh : nat             (* next reader or writer handle *)
}.

Definition sess (w : World) : CrowConnection := crow (druid w).

(** ** The monad: state, and exceptions that keep the state *)

Inductive result (A : Type) : Type :=
| Ok (a : A)
| Throw (message : string).
Arguments Ok {A} a.
Arguments Throw {A} message.

Definition M (A : Type) : Type := World -> result A * World.

Definition ret {A} (a : A) : M A := fun w => (Ok a, w).

Definition bind {A B} (m : M A) (k : A -> M B) : M B :=
  fun w =>
    match m w with
    | (Ok a, w') => k a w'
    | (Throw e, w') => (Throw e, w')
    end.

Definition throw {A} (e : string) : M A := fun w => (Throw e, w).

Declare Scope crow_scope.
Delimit Scope crow_scope with crow.
Notation "x <- m ;; k" := (bind m (fun x => k))
  (at level 61, m at next level, right associativity) : crow_scope.
Notation "m ;; k" := (bind m (fun _ => k))
  (at level 61, right associativity) : crow_scope.
Local Open Scope crow_scope.

(** [try { body } catch (error) { handler(error.message) }] *)
Definition try_catch {A} (body : M A) (handler : string -> M A) : M A :=
  fun w =>
    match body w with
    | (Ok a, w') => (Ok a, w')
    | (Throw e, w') => handler e w'
    end.

(** [await promise] *)
Definition await {A} (o : outcome A) : M A :=
  match o with
  | Resolved a => ret a
  | Rejected e => throw e
  end.

(** [await promise.catch(() => {})] *)
Definition swallow (m : M unit) : M unit := try_catch m (fun _ => ret tt).

(** A call of an async function that is not awaited: a rejection of its
    promise reaches nobody. *)
Definition detached (m : M unit) : M unit := try_catch m (fun _ => ret tt).

Definition this : M CrowConnection := fun w => (Ok (sess w), w).

Definition app : M DruidApp := fun w => (Ok (druid w), w).

Definition with_crow (f : CrowConnection -> CrowConnection) (a : DruidApp) : DruidApp :=
  {| crow := f (crow a); editor := editor a; scriptName := scriptName a;
     scriptModified := scriptModified a |}.

Definition assign (f : CrowConnection -> CrowConnection) : M unit :=
  fun w =>
    (Ok tt, {| druid := with_crow f (druid w); trace := trace w;
               loops := loops w; fresh := fresh w |}).

Definition log (o : list Obs) (w : World) : World :=
  {| druid := druid w; trace := trace w ++ o; loops := loops w; fresh := fresh w |}.

Definition emit (e : Effect) : M unit :=
  fun w => (Ok tt, log [{| during := sess w; what := e |}] w).

Definition alloc : M nat :=
  fun w =>
    (Ok (fresh w), {| druid := druid w; trace := trace w; loops := loops w;
                      fresh := S (fresh w) |}).

(** The loop that called [read()] on [r] waits for its answer. *)
Definition suspend (r : Reader) : M unit :=
  fun w =>
    (Ok tt, {| druid := druid w; trace := trace w; loops := loops w ++ [r];
               fresh := fresh w |}).

Definition TypeError_null (property : string) : string :=
  "Cannot read properties of null (reading '" ++ property ++ "')".

(** ** [CrowConnection]: the methods *)

(** [if (this.onConnectionChange) this.onConnectionChange(connected, reason)].
    The observer is the recorder of the trace. *)
Definition notify (connected : bool) (reason : option string) : M unit :=
  c <- this;;
  if onConnectionChange c then emit (ConnectionChange connected reason) else ret tt.

(** Cancelling a reader settles the [read()] that is pending on it with
    [done]: a loop waiting there leaves through [break] (line 62), which
    touches nothing.  Its continuation runs ahead of the canceller's, whose
    own promise settles later. *)
Definition settle_reads (r : Reader) : M unit :=
  fun w =>
    (Ok tt,
     {| druid := druid w;
        trace := trace w ++
                 map (fun r' => {| during := sess w; what := ReadDone r' |})
                     (filter (Nat.eqb r) (loops w));
        loops := filter (fun r' => negb (Nat.eqb r r')) (loops w);
        fresh := fresh w |}).

(** [this.reader.cancel()] *)
Definition reader_cancel (env : Env) (r : Reader) : M unit :=
  emit (ReaderCancel r);; settle_reads r;; await (cancel_ env).

(** [this.writer.close()] *)
Definition writer_close (env : Env) (w : Writer) : M unit :=
  emit (WriterClose w);; await (close_ env).

(** [this.port.close()] *)
Definition port_close (env : Env) (p : Port) : M unit :=
  emit (PortClose p);; await (portClose_ env).

Definition unexpected : string := "device disconnected. please reconnect > ".

(** The [catch] block of [startReading], lines 67-93. *)
Definition read_catch (env : Env) (error : string) : M unit :=
  emit (ConsoleError "Read error:" error);;
  c <- this;;
  if isConnected c then
    assign (set_isConnected false);;
    assign (set_shouldReconnect (Some false));;
    c <- this;;
    match reader c with
    | Some r => swallow (reader_cancel env r)
    | None => ret tt
    end;;
    c <- this;;
    match writer c with
    | Some w => swallow (writer_close env w)
    | None => ret tt
    end;;
    assign (set_reader None);;
    assign (set_writer None);;
    c <- this;;
    match port c with
    | Some p => swallow (port_close env p);; assign (set_port None)
    | None => ret tt
    end;;
    notify false (Some unexpected)
  else ret tt.

(** The head of the [while] of line 60 and the call of [read()] of line 61,
    up to the suspension. *)
Definition read_next : M unit :=
  c <- this;;
  if isConnected c then
    match reader c with
    | Some r => suspend r
    | None => throw (TypeError_null "read")
    end
  else ret tt.

(** [startReading()], lines 58-94, from its call to the first suspension. *)
Definition startReading (env : Env) : M unit :=
  try_catch read_next (read_catch env).

(** The loop resumed by a chunk: lines 62-65, and the next turn. *)
Definition resume_value (env : Env) (value : string) : M unit :=
  try_catch
    (c <- this;;
     (if negb (value =? "")%string && onDataReceived c
      then emit (DataReceived value) else ret tt);;
     read_next)
    (read_catch env).

(** The loop resumed by a rejected [read()]. *)
Definition resume_error (env : Env) (message : string) : M unit :=
  read_catch env message.

(** [connect()], lines 18-56. *)
Definition connect (env : Env) : M bool :=
  try_catch
    (emit RequestPort;;
     p <- await (requestPort_ env);;
     assign (set_port (Some p));;
     c <- this;;
     match port c with
     | Some p => emit (PortOpen p);; await (open_ env)
     | None => throw (TypeError_null "open")
     end;;
     assign (set_isConnected true);;
     c <- this;;
     match port c with
     | Some p => assign (set_readableStreamClosed (Some p))
     | None => throw (TypeError_null "readable")
     end;;
     r <- alloc;;
     assign (set_reader (Some r));;
     c <- this;;
     match port c with
     | Some p => assign (set_writableStreamClosed (Some p))
     | None => throw (TypeError_null "writable")
     end;;
     w <- alloc;;
     assign (set_writer (Some w));;
     detached (startReading env);;
     notify true None;;
     ret true)
    (fun error =>
       emit (ConsoleError "Connection error:" error);;
       notify false (Some error);;
       ret false).

(** [write(data)], lines 96-107. *)
Definition write (env : Env) (data : string) : M unit :=
  c <- this;;
  match isConnected c, writer c with
  | true, Some w =>
      try_catch
        (emit (WriterWrite w data);; await (write_ env))
        (fun error => emit (ConsoleError "Write error:" error);; throw error)
  | _, _ => throw "Not connected"
  end.

(** [writeLine(line)], lines 109-111. *)
Definition writeLine (env : Env) (line : string) : M unit :=
  write env (line ++ CRLF).

(** [disconnect()], lines 113-137. *)
Definition disconnect (env : Env) : M unit :=
  assign (set_isConnected false);;
  c <- this;;
  match reader c with
  | Some r =>
      swallow (reader_cancel env r);;
      c <- this;;
      match readableStreamClosed c with
      | Some p => swallow (emit (AwaitReadableClosed p);; await (readableClosed_ env))
      | None => throw (TypeError_null "catch")
      end
  | None => ret tt
  end;;
  c <- this;;
  match writer c with
  | Some w =>
      swallow (writer_close env w);;
      c <- this;;
      match writableStreamClosed c with
      | Some p => swallow (emit (AwaitWritableClosed p);; await (writableClosed_ env))
      | None => throw (TypeError_null "catch")
      end
  | None => ret tt
  end;;
  c <- this;;
  match port c with
  | Some p => swallow (port_close env p)
  | None => ret tt
  end;;
  assign (set_port None);;
  assign (set_reader None);;
  assign (set_writer None);;
  notify false None.

(** ** [DruidApp]: the uploads *)

(** [outputLine(text)], lines 1765-1773. *)
Definition outputLine (text : string) : M unit := emit (OutputText (text ++ LF)).

(** [delay(ms)], line 2066. *)
Definition delay (ms : nat) : M unit := emit (Delay ms).

(** [setModified(modified)], lines 1706-1709. *)
Definition setModified (modified : bool) : M unit :=
  fun w =>
    (Ok tt,
     {| druid := {| crow := crow (druid w); editor := editor (druid w);
                    scriptName := scriptName (druid w);
                    scriptModified := modified |};
        trace := trace w; loops := loops w; fresh := fresh w |}).

(** [for (const line of lines) { await this.crow.writeLine(line);
    await this.delay(1); }]; [envs k] is the platform during the [k]-th
    [writeLine] of the upload. *)
Fixpoint send_lines (envs : nat -> Env) (k : nat) (lines : list string) : M unit :=
  match lines with
  | [] => ret tt
  | line :: rest =>
      writeLine (envs k) line;; delay 1;; send_lines envs (S k) rest
  end.

(** The three uploads differ in the control line that ends them, in what
    follows it, and in the separator they split the text at. *)
Definition send_script (envs : nat -> Env) (sep code last : string) : M unit :=
  writeLine (envs 0) "^^s";;
  delay 200;;
  send_lines envs 1 (split sep code);;
  writeLine (envs (S (List.length (split sep code)))) last;;
  delay 100.

(** [runScript()], lines 1598-1620. *)
Definition runScript (envs : nat -> Env) : M unit :=
  c <- this;;
  a <- app;;
  match isConnected c, editor a with
  | true, Some code =>
      outputLine ("Running " ++ scriptName a ++ "...");;
      try_catch
        (send_script envs LF code "^^e";;
         outputLine ("Ran " ++ scriptName a ++ LF))
        (fun error => outputLine ("Run error: " ++ error ++ LF))
  | _, _ => ret tt
  end.

(** [uploadScript()], lines 1622-1644. *)
Definition uploadScript (envs : nat -> Env) : M unit :=
  c <- this;;
  a <- app;;
  match isConnected c, editor a with
  | true, Some code =>
      outputLine ("Uploading " ++ scriptName a ++ "...");;
      try_catch
        (send_script envs LF code "^^w";;
         setModified false)
        (fun error => outputLine ("Upload error: " ++ error ++ LF))
  | _, _ => ret tt
  end.

(** A dropped file: its name, and what [file.text()] settles to. *)
Record File : Type := { name : string; text : outcome string }.

(** [uploadFileFromDrop(file)], lines 1880-1904. *)
Definition uploadFileFromDrop (envs : nat -> Env) (file : File) : M unit :=
  c <- this;;
  if negb (isConnected c) then
    outputLine "Error: Not connected to usb device (click connect in the header)"
  else
    try_catch
      (t <- await (text file);;
       outputLine ("Uploading " ++ name file ++ "...");;
       send_script envs BACKSLASH_N t "^^w")
      (fun error => outputLine ("Upload error: " ++ error ++ BACKSLASH_N)).

(** ** Executions *)

(** What can happen to a session: a caller calls a method, or the platform
    settles the [read()] a loop waits for with a chunk or with an error.
    ([done] is not the platform's to send: see [settle_reads].) *)
Inductive Action : Type :=
| Connect (env : Env)
| Disconnect (env : Env)
| Write (env : Env) (data : string)
| WriteLine (env : Env) (line : string)
| ReadValue (r : Reader) (value : string) (env : Env)
| ReadError (r : Reader) (message : string) (env : Env).

Fixpoint remove_first (r : Reader) (l : list Reader) : list Reader :=
  match l with
  | [] => []
  | x :: l' => if Nat.eqb r x then l' else x :: remove_first r l'
  end.

Definition waiting (r : Reader) (w : World) : bool :=
  existsb (Nat.eqb r) (loops w).

Definition resumed (r : Reader) (w : World) : World :=
  {| druid := druid w; trace := trace w; loops := remove_first r (loops w);
     fresh := fresh w |}.

(** An action the state does not enable (a read settled for a loop that is
    not waiting) leaves the world as it is. *)
Definition step (w : World) (a : Action) : World :=
  match a with
  | Connect env => snd (connect env w)
  | Disconnect env => snd (disconnect env w)
  | Write env data => snd (write env data w)
  | WriteLine env line => snd (writeLine env line w)
  | ReadValue r value env =>
      if waiting r w then snd (resume_value env value (resumed r w)) else w
  | ReadError r message env =>
      if waiting r w then snd (resume_error env message (resumed r w)) else w
  end.

Definition run (acts : list Action) (w : World) : World := fold_left step acts w.

(** The connection-change events of a trace, in order. *)
Fixpoint connection_events (t : list Obs) : list (bool * option string) :=
  match t with
  | [] => []
  | o :: t' =>
      match what o with
      | ConnectionChange connected reason => (connected, reason) :: connection_events t'
      | _ => connection_events t'
      end
  end.

(** The texts handed to the writer, in order. *)
Fixpoint written (t : list Obs) : list string :=
  match t with
  | [] => []
  | o :: t' =>
      match what o with
      | WriterWrite _ data => data :: written t'
      | _ => written t'
      end
  end.

(** The calls that release a resource. *)
Definition is_release (e : Effect) : bool :=
  match e with
  | ReaderCancel _ | WriterClose _ | PortClose _ => true
  | _ => false
  end.

Definition releases (t : list Obs) : list Obs :=
  filter (fun o => is_release (what o)) t.

(** Idle: the four fields of a session as the constructor leaves them. *)
Definition idle (c : CrowConnection) : Prop :=
  isConnected c = false /\ port c = None /\ reader c = None /\ writer c = None.

(** [new DruidApp()], as far as modelled: lines 142-148 and the observers
    of lines 299-300. *)
Definition observed (c : CrowConnection) : CrowConnection :=
  {| port := port c; reader := reader c; writer := writer c;
     isConnected := isConnected c;
     readableStreamClosed := readableStreamClosed c;
     writableStreamClosed := writableStreamClosed c;
     onDataReceived := true;
     onConnectionChange := true;
     shouldReconnect := shouldReconnect c |}.

Definition new_DruidApp : DruidApp :=
  {| crow := observed new_CrowConnection;
     editor := None; scriptName := "untitled.lua"; scriptModified := false |}.

Definition start : World :=
  {| druid := new_DruidApp; trace := []; loops := []; fresh := 0 |}.

Definition quiet : Env :=
  {| requestPort_ := Resolved 0; open_ := Resolved tt; cancel_ := Resolved tt;
     readableClosed_ := Resolved tt; close_ := Resolved tt;
     writableClosed_ := Resolved tt; portClose_ := Resolved tt;
     write_ := Resolved tt |}.

(** ** The vocabulary of the statements *)

(** *** Platforms *)

(** The device is gone: nothing is selected, and the releases reject. *)
Definition lost : Env :=
  {| requestPort_ := Rejected "No port selected by the user.";
     open_ := Resolved tt; cancel_ := Rejected "released";
     readableClosed_ := Resolved tt; close_ := Rejected "closing";
     writableClosed_ := Resolved tt; portClose_ := Rejected "The device has been lost.";
     write_ := Resolved tt |}.

(** A device is selected and its port does not open. *)
Definition refused (message : string) : Env :=
  {| requestPort_ := Resolved 4; open_ := Rejected message;
     cancel_ := Resolved tt; readableClosed_ := Resolved tt;
     close_ := Resolved tt; writableClosed_ := Resolved tt;
     portClose_ := Rejected "The port is already closed."; write_ := Resolved tt |}.

(** Another device is selected, and opens. *)
Definition second_device : Env :=
  {| requestPort_ := Resolved 7; open_ := Resolved tt; cancel_ := Resolved tt;
     readableClosed_ := Resolved tt; close_ := Resolved tt;
     writableClosed_ := Resolved tt; portClose_ := Resolved tt;
     write_ := Resolved tt |}.

(** *** Actions and sessions *)

(** A [connect()] fails when the selection or the opening is rejected. *)
Definition connect_fails (env : Env) : bool :=
  match requestPort_ env, open_ env with
  | Resolved _, Resolved _ => false
  | _, _ => true
  end.

(** Anything but a [connect()] that succeeds. *)
Definition keeps_disconnected (a : Action) : bool :=
  match a with
  | Connect env => connect_fails env
  | _ => true
  end.

(** What may pass between the two calls without ending the connection:
    writes, and chunks arriving from the device. *)
Definition is_traffic (a : Action) : bool :=
  match a with
  | Write _ _ | WriteLine _ _ | ReadValue _ _ _ => true
  | _ => false
  end.

Definition present {A : Type} (o : option A) : bool :=
  match o with
  | Some _ => true
  | None => false
  end.

(** A connected session holds its port, its reader and writer, and the
    two pipe promises. *)
Definition holds_resources (c : CrowConnection) : bool :=
  negb (isConnected c) ||
  (present (port c) && present (reader c) && present (writer c) &&
   present (readableStreamClosed c) && present (writableStreamClosed c)).

(** *** Traces *)

Definition is_mark (e : Effect) : bool :=
  match e with
  | ReadDone _ => true
  | _ => false
  end.

(** A trace without the marks of loops that ended. *)
Definition visible (t : list Obs) : list Obs :=
  filter (fun o => negb (is_mark (what o))) t.

(** The step taken for a field that is not null. *)
Definition opt {A B : Type} (f : A -> B) (o : option A) : list B :=
  match o with
  | Some a => [f a]
  | None => []
  end.

(** A mark of a loop that left through [break] was made while
    [isConnected] was false. *)
Definition done_ok (o : Obs) : bool :=
  match what o with
  | ReadDone _ => negb (isConnected (during o))
  | _ => true
  end.

(** The ends of read loops and the connection-change events of a trace,
    in order. *)
Fixpoint ends_and_events (t : list Obs) : list Effect :=
  match t with
  | [] => []
  | o :: t' =>
      match what o with
      | ReadDone r => ReadDone r :: ends_and_events t'
      | ConnectionChange connected reason =>
          ConnectionChange connected reason :: ends_and_events t'
      | _ => ends_and_events t'
      end
  end.

(** The loops that wait on the reader of the session. *)
Definition listening (w : World) : list Reader :=
  match reader (sess w) with
  | Some r => filter (Nat.eqb r) (loops w)
  | None => []
  end.

(** *** Uploads *)

(** What one line of the loop leaves in the trace. *)
Definition line_sent (c : CrowConnection) (wr : Writer) (line : string) : list Obs :=
  [{| during := c; what := WriterWrite wr (line ++ CRLF) |};
   {| during := c; what := Delay 1 |}].

(** What an upload whose writes all succeed leaves in the trace. *)
Definition script_sent (c : CrowConnection) (wr : Writer)
           (lines : list string) (last : string) : list Obs :=
  [{| during := c; what := WriterWrite wr ("^^s" ++ CRLF) |};
   {| during := c; what := Delay 200 |}] ++
  flat_map (line_sent c wr) lines ++
  [{| during := c; what := WriterWrite wr (last ++ CRLF) |};
   {| during := c; what := Delay 100 |}].

(** A line of the output log. *)
Definition said (c : CrowConnection) (text : string) : Obs :=
  {| during := c; what := OutputText (text ++ LF) |}.

(** The calls of [writeLine] an upload is to make: begin, each line, end. *)
Definition upload_pattern (lines : list string) (last : string) : list string :=
  map (fun l => (l ++ CRLF)%string) ("^^s" :: lines ++ [last]).

(** The editor holds [code]. *)
Definition editing (code : string) (w : World) : World :=
  {| druid := {| crow := crow (druid w); editor := Some code;
                 scriptName := scriptName (druid w);
                 scriptModified := scriptModified (druid w) |};
     trace := trace w; loops := loops w; fresh := fresh w |}.

(** A script of two lines. *)
Definition two_lines : string := "x = 1" ++ LF ++ "y = 2".

(** *** Three claims as the specification has them *)

(** C4, as the specification has it: on an idle session [disconnect()]
    returns normally and fires no connection-change event. *)
Definition idle_disconnect_is_silent : Prop :=
  forall (env : Env) (w : World),
    idle (sess w) ->
    fst (disconnect env w) = Ok tt /\
    connection_events (trace (snd (disconnect env w))) = connection_events (trace w).

(** C5, as the specification has it: a [connect()] on a connected session
    returns false and replaces none of port, reader and writer. *)
Definition connect_while_connected_is_rejected : Prop :=
  forall (env : Env) (w : World),
    isConnected (sess w) = true ->
    fst (connect env w) = Ok false /\
    port (sess (snd (connect env w))) = port (sess w) /\
    reader (sess (snd (connect env w))) = reader (sess w) /\
    writer (sess (snd (connect env w))) = writer (sess w).

(** C8, as the specification has it: when a loop sees the clean end of the
    stream, [isConnected] is false and a deliberate disconnect has already
    fired its [{connected: false}] event. *)
Definition end_of_stream_follows_event : Prop :=
  forall (acts : list Action) (n : nat) (o : Obs) (r : Reader),
    nth_error (trace (run acts start)) n = Some o ->
    what o = ReadDone r ->
    isConnected (during o) = false /\
    exists reason,
      In (false, reason) (connection_events (firstn n (trace (run acts start)))).

(** ** [DruidApp]: text *)

(** In the functions below a character of a text is a code unit below 256.
    [s.replace(/c/g, r)] for a pattern of one character [c]. *)
Fixpoint replace_all (c : ascii) (r s : string) : string :=
  match s with
  | EmptyString => EmptyString
  | String a s' =>
      if Ascii.eqb a c then r ++ replace_all c r s'
      else String a (replace_all c r s')
  end.

(** [s.lastIndexOf(c)] for one character [c]: [-1] when there is none.
    [i] is the index of the head of [s], [last] the latest match so far. *)
Fixpoint lastIndexOf_from (c : ascii) (i : nat) (last : Z) (s : string) : Z :=
  match s with
  | EmptyString => last
  | String a s' =>
      lastIndexOf_from c (S i) (if Ascii.eqb a c then Z.of_nat i else last) s'
  end.

Definition lastIndexOf (c : ascii) (s : string) : Z := lastIndexOf_from c 0 (-1) s.

(** [s.substring(n)] *)
Definition substring_from (n : nat) (s : string) : string :=
  substring n (String.length s - n) s.

(** [(s.match(/c/g) || []).length] for one character [c]. *)
Fixpoint count_matches (c : ascii) (s : string) : nat :=
  match s with
  | EmptyString => 0
  | String a s' => (if Ascii.eqb a c then 1 else 0) + count_matches c s'
  end.

(** [getActiveParameter(text)], lines 1237-1245. *)
Definition getActiveParameter (text : string) : nat :=
  let openParen := lastIndexOf "("%char text in
  if (openParen =? -1)%Z then 0
  else count_matches ","%char (substring_from (Z.to_nat (openParen + 1)) text).

(** [s.includes(sub)] *)
Fixpoint includes (sub s : string) : bool :=
  prefix sub s ||
  match s with
  | EmptyString => false
  | String _ s' => includes sub s'
  end.

(** [s.endsWith(suffix)] *)
Definition endsWith (suffix s : string) : bool :=
  Nat.leb (String.length suffix) (String.length s) &&
  String.eqb (substring_from (String.length s - String.length suffix) s) suffix.

(** White space and line terminators of ECMAScript among the code units
    below 256: TAB, LF, VT, FF, CR, SP and NBSP. *)
Definition is_space (c : ascii) : bool :=
  match nat_of_ascii c with
  | 9 | 10 | 11 | 12 | 13 | 32 | 160 => true
  | _ => false
  end.

Fixpoint trimStart (s : string) : string :=
  match s with
  | EmptyString => EmptyString
  | String c s' => if is_space c then trimStart s' else s
  end.

Fixpoint trimEnd (s : string) : string :=
  match s with
  | EmptyString => EmptyString
  | String c s' =>
      match trimEnd s' with
      | EmptyString => if is_space c then EmptyString else String c EmptyString
      | t => String c t
      end
  end.

(** [s.trim()] *)
Definition trim (s : string) : string := trimEnd (trimStart s).

(** [lines.join(sep)] *)
Fixpoint join (sep : string) (lines : list string) : string :=
  match lines with
  | [] => EmptyString
  | [l] => l
  | l :: rest => l ++ sep ++ join sep rest
  end.

(** ** [DruidApp]: the session seen from the page *)

(** [outputText(text)], lines 1769-1773. *)
Definition outputText (t : string) : M unit := emit (OutputText t).

(** [handleCrowOutput(data)], lines 1593-1596. *)
Definition handleCrowOutput (data : string) : M unit :=
  outputText (replace_all "013"%char EmptyString data).

(** [DruidApp.connect()], lines 1552-1558. *)
Definition druid_connect (env : Env) : M unit :=
  outputLine "Connecting to crow...";;
  success <- connect env;;
  if success : bool
  then outputLine ("Connected! Ready to code." ++ LF ++
                   "Drag and drop a lua file here to auto-upload." ++ LF)
  else ret tt.

(** [DruidApp.disconnect()], lines 1560-1563. *)
Definition druid_disconnect (env : Env) : M unit :=
  disconnect env;;
  outputLine (LF ++ "Disconnected from crow." ++ LF).

(** [toggleConnection()], lines 1544-1550. *)
Definition toggleConnection (env : Env) : M unit :=
  c <- this;;
  if isConnected c then druid_disconnect env else druid_connect env.

Definition not_connected_error : string :=
  "Error: Not connected to usb device (click connect in the header)".

(** [sendToCrow(code)], lines 1906-1922. *)
Definition sendToCrow (envs : nat -> Env) (code : string) : M unit :=
  c <- this;;
  if negb (isConnected c) then outputLine not_connected_error
  else
    try_catch
      (send_lines envs 0 (split LF code);;
       outputLine (">> " ++ replace_all "010"%char (LF ++ ">> ") code))
      (fun error => outputLine ("Error: " ++ error)).

(** [this.editor.setValue(text)] with the listener of lines 362-365, which
    marks the script modified on every change of the content. *)
Definition editor_setValue (t : string) : M unit :=
  fun w =>
    match editor (druid w) with
    | Some _ =>
        (Ok tt,
         {| druid := {| crow := crow (druid w); editor := Some t;
                        scriptName := scriptName (druid w);
                        scriptModified := true |};
            trace := trace w; loops := loops w; fresh := fresh w |})
    | None => (Throw (TypeError_null "setValue"), w)
    end.

Definition set_scriptName (n : string) : M unit :=
  fun w =>
    (Ok tt,
     {| druid := {| crow := crow (druid w); editor := editor (druid w);
                    scriptName := n;
                    scriptModified := scriptModified (druid w) |};
        trace := trace w; loops := loops w; fresh := fresh w |}).


(** [renameScript()], lines 1693-1704; [answer] is what [prompt] returns,
    [None] for [null].  A name of this model holds no bullet, so
    [replace(' \u2022', '')] leaves it as it is. *)
Definition renameScript (answer : option string) : M unit :=
  a <- app;;
  let currentName := scriptName a in
  match answer with
  | Some newName =>
      if negb (newName =? "")%string && negb (trim newName =? "")%string &&
         negb (newName =? currentName)%string
      then
        set_scriptName (trim newName);;
        a <- app;;
        if negb (endsWith ".lua" (scriptName a))
        then set_scriptName (scriptName a ++ ".lua")
        else ret tt
      else ret tt
  | None => ret tt
  end.


(** ** [DruidApp]: the console *)

(** A script of the bowery list (lines 1956-1961). *)
Record Script : Type := {
  script_name : string;
  script_path : string;
  script_size : nat;
  script_url : string
}.

(** What [fetch] resolves to: [response.ok], [response.status] and what
    [response.text()] settles to. *)
Record Response : Type := {
  ok : bool;
  status : nat;
  response_text : outcome string
}.

(** The rest of [DruidApp], and the two elements of the page whose state
    the methods below read or write. *)
Record Page : Type := {
  replEditor : option string;       (* null, or the REPL editor and its text *)
  replAutocompleteEnabled : bool;
  commandHistory : list string;
  historyIndex : Z;
  currentInput : string;
  isNavigatingHistory : bool;
  editorVisible : bool;             (* undefined counts as false *)
  currentFile : option File;
  replInput_value : string;         (* elements.replInput.value *)
  boweryModal_display : string      (* elements.boweryModal.style.display *)
}.

(** [constructor()], lines 141-158, over a page whose textarea is empty. *)
Definition new_Page : Page :=
  {| replEditor := None; replAutocompleteEnabled := true;
     commandHistory := []; historyIndex := (-1)%Z; currentInput := "";
     isNavigatingHistory := false; editorVisible := false;
     currentFile := None; replInput_value := ""; boweryModal_display := "" |}.

Definition set_replEditor v p :=
  {| replEditor := v; replAutocompleteEnabled := replAutocompleteEnabled p;
     commandHistory := commandHistory p; historyIndex := historyIndex p;
     currentInput := currentInput p; isNavigatingHistory := isNavigatingHistory p;
     editorVisible := editorVisible p; currentFile := currentFile p;
     replInput_value := replInput_value p;
     boweryModal_display := boweryModal_display p |}.

Definition set_commandHistory v p :=
  {| replEditor := replEditor p; replAutocompleteEnabled := replAutocompleteEnabled p;
     commandHistory := v; historyIndex := historyIndex p;
     currentInput := currentInput p; isNavigatingHistory := isNavigatingHistory p;
     editorVisible := editorVisible p; currentFile := currentFile p;
     replInput_value := replInput_value p;
     boweryModal_display := boweryModal_display p |}.

Definition set_historyIndex v p :=
  {| replEditor := replEditor p; replAutocompleteEnabled := replAutocompleteEnabled p;
     commandHistory := commandHistory p; historyIndex := v;
     currentInput := currentInput p; isNavigatingHistory := isNavigatingHistory p;
     editorVisible := editorVisible p; currentFile := currentFile p;
     replInput_value := replInput_value p;
     boweryModal_display := boweryModal_display p |}.

Definition set_currentInput v p :=
  {| replEditor := replEditor p; replAutocompleteEnabled := replAutocompleteEnabled p;
     commandHistory := commandHistory p; historyIndex := historyIndex p;
     currentInput := v; isNavigatingHistory := isNavigatingHistory p;
     editorVisible := editorVisible p; currentFile := currentFile p;
     replInput_value := replInput_value p;
     boweryModal_display := boweryModal_display p |}.

Definition set_isNavigatingHistory v p :=
  {| replEditor := replEditor p; replAutocompleteEnabled := replAutocompleteEnabled p;
     commandHistory := commandHistory p; historyIndex := historyIndex p;
     currentInput := currentInput p; isNavigatingHistory := v;
     editorVisible := editorVisible p; currentFile := currentFile p;
     replInput_value := replInput_value p;
     boweryModal_display := boweryModal_display p |}.

Definition set_currentFile v p :=
  {| replEditor := replEditor p; replAutocompleteEnabled := replAutocompleteEnabled p;
     commandHistory := commandHistory p; historyIndex := historyIndex p;
     currentInput := currentInput p; isNavigatingHistory := isNavigatingHistory p;
     editorVisible := editorVisible p; currentFile := v;
     replInput_value := replInput_value p;
     boweryModal_display := boweryModal_display p |}.

Definition set_replInput_value v p :=
  {| replEditor := replEditor p; replAutocompleteEnabled := replAutocompleteEnabled p;
     commandHistory := commandHistory p; historyIndex := historyIndex p;
     currentInput := currentInput p; isNavigatingHistory := isNavigatingHistory p;
     editorVisible := editorVisible p; currentFile := currentFile p;
     replInput_value := v;
     boweryModal_display := boweryModal_display p |}.

Definition set_boweryModal_display v p :=
  {| replEditor := replEditor p; replAutocompleteEnabled := replAutocompleteEnabled p;
     commandHistory := commandHistory p; historyIndex := historyIndex p;
     currentInput := currentInput p; isNavigatingHistory := isNavigatingHistory p;
     editorVisible := editorVisible p; currentFile := currentFile p;
     replInput_value := replInput_value p;
     boweryModal_display := v |}.

(** The session and its trace, and the page. *)
Record Desk : Type := { world : World; page : Page }.

Definition D (A : Type) : Type := Desk -> result A * Desk.

Definition retD {A} (a : A) : D A := fun d => (Ok a, d).

Definition bindD {A B} (m : D A) (k : A -> D B) : D B :=
  fun d =>
    match m d with
    | (Ok a, d') => k a d'
    | (Throw e, d') => (Throw e, d')
    end.

Definition throwD {A} (e : string) : D A := fun d => (Throw e, d).

Definition try_catchD {A} (body : D A) (handler : string -> D A) : D A :=
  fun d =>
    match body d with
    | (Ok a, d') => (Ok a, d')
    | (Throw e, d') => handler e d'
    end.

(** A method of the session, or one that needs the fields of [World]
    only, run at the desk. *)
Definition lift {A} (m : M A) : D A :=
  fun d =>
    match m (world d) with
    | (r, w') => (r, {| world := w'; page := page d |})
    end.

Definition awaitD {A} (o : outcome A) : D A := lift (await o).

Definition the_page : D Page := fun d => (Ok (page d), d).

Definition update (f : Page -> Page) : D unit :=
  fun d => (Ok tt, {| world := world d; page := f (page d) |}).

Declare Scope desk_scope.
Delimit Scope desk_scope with desk.
Notation "x <- m ;; k" := (bindD m (fun x => k))
  (at level 61, m at next level, right associativity) : desk_scope.
Notation "m ;; k" := (bindD m (fun _ => k))
  (at level 61, right associativity) : desk_scope.
Local Open Scope desk_scope.

(** [h[i]]: [None] is [undefined]. *)
Definition history_at (h : list string) (i : Z) : option string :=
  if (i <? 0)%Z then None else nth_error h (Z.to_nat i).

Definition history_length (h : list string) : Z := Z.of_nat (List.length h).

(** [this.replEditor.getValue()] *)
Definition replEditor_getValue : D string :=
  p <- the_page;;
  match replEditor p with
  | Some v => retD v
  | None => throwD (TypeError_null "getValue")
  end.

(** The second listener of the content of the REPL editor, lines 536-546:
    an edit that is not a step through the history ends the browsing. *)
Definition replEditor_changed : D unit :=
  p <- the_page;;
  if replAutocompleteEnabled p then
    if negb (historyIndex p =? -1)%Z && negb (isNavigatingHistory p)
    then update (set_historyIndex (-1)%Z)
    else retD tt
  else retD tt.

(** [this.replEditor.setValue(v)], which runs the listener.  What the
    editor does when handed [undefined] is not this repository's: the model
    stops there with an error. *)
Definition replEditor_setValue (v : option string) : D unit :=
  p <- the_page;;
  match replEditor p with
  | None => throwD (TypeError_null "setValue")
  | Some _ =>
      match v with
      | Some t => update (set_replEditor (Some t));; replEditor_changed
      | None => throwD "setValue(undefined)"
      end
  end.

(** The user edits the text of the REPL editor. *)
Definition replEditor_typed (t : string) : D unit :=
  p <- the_page;;
  match replEditor p with
  | None => retD tt
  | Some _ => update (set_replEditor (Some t));; replEditor_changed
  end.

(** The entry shown at the present index, [commandHistory[length - 1 -
    historyIndex]]. *)
Definition shown_entry (p : Page) : option string :=
  history_at (commandHistory p)
             (history_length (commandHistory p) - 1 - historyIndex p).

(** [navigateReplHistory(direction)], lines 586-612. *)
Definition navigateReplHistory (direction : string) : D unit :=
  if (direction =? "up")%string then
    p <- the_page;;
    if (history_length (commandHistory p) =? 0)%Z then retD tt
    else
      (if (historyIndex p =? -1)%Z
       then v <- replEditor_getValue;; update (set_currentInput v)
       else retD tt);;
      p <- the_page;;
      if (historyIndex p <? history_length (commandHistory p) - 1)%Z then
        update (set_historyIndex (historyIndex p + 1)%Z);;
        update (set_isNavigatingHistory true);;
        p <- the_page;;
        replEditor_setValue (shown_entry p);;
        update (set_isNavigatingHistory false)
      else retD tt
  else if (direction =? "down")%string then
    p <- the_page;;
    if (historyIndex p =? -1)%Z then retD tt
    else
      update (set_historyIndex (historyIndex p - 1)%Z);;
      update (set_isNavigatingHistory true);;
      p <- the_page;;
      (if (historyIndex p =? -1)%Z
       then replEditor_setValue (Some (currentInput p))
       else replEditor_setValue (shown_entry p));;
      update (set_isNavigatingHistory false)
  else retD tt.

(** Lines 620-622 and 1486-1488: the command is added to the history
    unless it repeats the last one. *)
Definition remember (code : string) : D unit :=
  p <- the_page;;
  if (history_length (commandHistory p) =? 0)%Z ||
     negb match history_at (commandHistory p)
                           (history_length (commandHistory p) - 1) with
          | Some l => (l =? code)%string
          | None => false
          end
  then update (set_commandHistory (commandHistory p ++ [code]))
  else retD tt.

(** [sendReplCommand(code)], lines 614-647. *)
Definition sendReplCommand (envs : nat -> Env) (code : string) : D unit :=
  lift (outputLine (">> " ++ code));;
  remember code;;
  c <- lift this;;
  if negb (isConnected c) then
    lift (outputLine "crow is not connected");;
    replEditor_setValue (Some "");;
    update (set_historyIndex (-1)%Z);;
    update (set_currentInput "")
  else
    try_catchD
      (lift (send_lines envs 0 (split LF code));;
       update (set_historyIndex (-1)%Z);;
       update (set_currentInput "");;
       replEditor_setValue (Some ""))
      (fun error => lift (outputLine ("Error: " ++ error))).

(** A [keydown] on the textarea: the key, the shift key, and whether the
    textarea is [document.activeElement]. *)
Record KeyEvent : Type := { key : string; shiftKey : bool; onReplInput : bool }.

(** [elements.replInput.value = v]: [undefined] becomes the text
    "undefined". *)
Definition replInput_assign (v : option string) : D unit :=
  update (set_replInput_value match v with Some t => t | None => "undefined" end).

(** [handleReplInput(e)], lines 1441-1519.  The result tells whether
    [e.preventDefault()] was called. *)
Definition handleReplInput (envs : nat -> Env) (e : KeyEvent) : D bool :=
  if negb (onReplInput e) then retD false
  else if (key e =? "ArrowUp")%string then
    p <- the_page;;
    if (history_length (commandHistory p) =? 0)%Z then retD true
    else
      (if (historyIndex p =? -1)%Z
       then update (set_currentInput (replInput_value p))
       else retD tt);;
      p <- the_page;;
      (if (historyIndex p <? history_length (commandHistory p) - 1)%Z then
         update (set_historyIndex (historyIndex p + 1)%Z);;
         p <- the_page;;
         replInput_assign (shown_entry p)
       else retD tt);;
      retD true
  else if (key e =? "ArrowDown")%string then
    p <- the_page;;
    if (historyIndex p =? -1)%Z then retD true
    else
      update (set_historyIndex (historyIndex p - 1)%Z);;
      p <- the_page;;
      (if (historyIndex p =? -1)%Z
       then replInput_assign (Some (currentInput p))
       else replInput_assign (shown_entry p));;
      retD true
  else if (key e =? "Enter")%string && negb (shiftKey e) then
    p <- the_page;;
    let code := trim (replInput_value p) in
    if (code =? "")%string then retD true
    else
      lift (outputLine (">> " ++ code));;
      remember code;;
      c <- lift this;;
      if negb (isConnected c) then
        lift (outputLine "crow is not connected");;
        replInput_assign (Some "");;
        update (set_historyIndex (-1)%Z);;
        update (set_currentInput "");;
        retD true
      else
        try_catchD
          (lift (send_lines envs 0 (split LF code));;
           update (set_historyIndex (-1)%Z);;
           update (set_currentInput "");;
           replInput_assign (Some ""))
          (fun error => lift (outputLine ("Error: " ++ error)));;
        retD true
  else
    p <- the_page;;
    (if negb (historyIndex p =? -1)%Z
     then update (set_historyIndex (-1)%Z);; update (set_currentInput "")
     else retD tt);;
    retD false.

(** [loadFileFromDrop(file)], lines 1864-1878. *)
Definition loadFileFromDrop (file : File) : D unit :=
  try_catchD
    (t <- awaitD (text file);;
     lift (set_scriptName (name file));;
     update (set_currentFile None);;
     a <- lift app;;
     (if present (editor a) then lift (editor_setValue t) else retD tt);;
     lift (setModified false);;
     lift (outputLine ("Loaded " ++ name file ++ " into editor")))
    (fun error => lift (outputLine ("Error loading file: " ++ error))).

Definition only_lua : string := "Error: Only .lua files are supported".

(** The [drop] listener of the editor pane, lines 1813-1823. *)
Definition drop_on_editorPane (files : list File) : D unit :=
  match files with
  | file :: _ =>
      if endsWith ".lua" (name file) then loadFileFromDrop file
      else lift (outputLine only_lua)
  | [] => retD tt
  end.

(** The [drop] listener of the REPL pane, lines 1826-1836. *)
Definition drop_on_replPane (envs : nat -> Env) (files : list File) : D unit :=
  match files with
  | file :: _ =>
      if endsWith ".lua" (name file) then lift (uploadFileFromDrop envs file)
      else lift (outputLine only_lua)
  | [] => retD tt
  end.

(** [`${n}`] for a number that is a natural. *)
Definition number_text (n : nat) : string := NilEmpty.string_of_uint (Nat.to_uint n).

(** [loadBoweryScript(script)], lines 2021-2064; [fetched] is what
    [fetch(script.url)] settles to. *)
Definition loadBoweryScript (envs : nat -> Env) (fetched : outcome Response)
           (script : Script) : D unit :=
  try_catchD
    (update (set_boweryModal_display "none");;
     response <- awaitD fetched;;
     if negb (ok response)
     then throwD ("Failed to fetch (check connection): " ++ number_text (status response))
     else
       content <- awaitD (response_text response);;
       p <- the_page;;
       if editorVisible p then
         lift (set_scriptName (script_name script));;
         update (set_currentFile None);;
         a <- lift app;;
         (if present (editor a) then lift (editor_setValue content) else retD tt);;
         lift (setModified false)
       else
         c <- lift this;;
         if negb (isConnected c) then lift (outputLine not_connected_error)
         else
           lift (outputLine ("Uploading " ++ script_name script ++ "..."));;
           lift (send_script envs LF content "^^w"))
    (fun error => lift (outputLine ("Error: " ++ error))).

(** [newScript()], lines 1646-1658; [confirmed] is the answer to the
    question asked when there are unsaved changes. *)
Definition template : string :=
  "-- crow script" ++ LF ++ LF ++ "function init()" ++ LF ++
  "  print(" ++ String "034"%char "hello crow" ++ String "034"%char ")" ++ LF ++
  "end" ++ LF.

Definition newScript (confirmed : bool) : D unit :=
  a <- lift app;;
  if scriptModified a && negb confirmed then retD tt
  else
    lift (set_scriptName "untitled.lua");;
    update (set_currentFile None);;
    lift (editor_setValue template);;
    lift (setModified false).

(** ** Executions at the desk *)

Inductive DeskAction : Type :=
| OfSession (a : Action)
| Toggle (env : Env)
| Navigate (direction : string)
| Send (envs : nat -> Env) (code : string)
| Typed (t : string)
| KeyDown (envs : nat -> Env) (e : KeyEvent)
| InputTyped (t : string).

Definition in_world (f : World -> World) (d : Desk) : Desk :=
  {| world := f (world d); page := page d |}.

Definition desk_step (d : Desk) (a : DeskAction) : Desk :=
  match a with
  | OfSession a => in_world (fun w => step w a) d
  | Toggle env => in_world (fun w => snd (toggleConnection env w)) d
  | Navigate direction => snd (navigateReplHistory direction d)
  | Send envs code => snd (sendReplCommand envs code d)
  | Typed t => snd (replEditor_typed t d)
  | KeyDown envs e => snd (handleReplInput envs e d)
  | InputTyped t => snd (update (set_replInput_value t) d)
  end.

Definition desk_run (acts : list DeskAction) (d : Desk) : Desk :=
  fold_left desk_step acts d.

(** The desk once the two editors are there (lines 343 and 402). *)
Definition ready : Desk :=
  {| world := editing template start; page := set_replEditor (Some "") new_Page |}.

Local Close Scope desk_scope.

(** ** More vocabulary *)

(** The chunks handed to the data observer, in order. *)
Fixpoint data_events (t : list Obs) : list string :=
  match t with
  | [] => []
  | o :: t' =>
      match what o with
      | DataReceived chunk => chunk :: data_events t'
      | _ => data_events t'
      end
  end.

(** What [handleConnectionChange(connected, error)] appends to the output
    element, lines 1586-1589. *)
Definition connection_message (connected : bool) (error : option string) : string :=
  match connected, error with
  | false, Some e =>
      if negb (e =? "")%string && includes "disconnected" e
      then LF ++ e ++ LF else ""
  | _, _ => ""
  end.

(** The text of the output element: the text nodes appended, in order.
    The observers of the session are those of the page (lines 299-300):
    a chunk goes through [handleCrowOutput], a connection change through
    [handleConnectionChange]. *)
Fixpoint shown (t : list Obs) : string :=
  match t with
  | [] => EmptyString
  | o :: t' =>
      match what o with
      | OutputText x => x ++ shown t'
      | DataReceived chunk => replace_all "013"%char EmptyString chunk ++ shown t'
      | ConnectionChange connected error =>
          connection_message connected error ++ shown t'
      | _ => shown t'
      end
  end.

(** What the latest connection-change event said; [false] when there was
    none. *)
Definition reported (t : list Obs) : bool :=
  match rev (connection_events t) with
  | (connected, _) :: _ => connected
  | [] => false
  end.

(** The page has been told the truth: its observer of the connection is
    there, and what it was last told is the state of the session. *)
Definition truthful (w : World) : Prop :=
  onConnectionChange (sess w) = true /\ reported (trace w) = isConnected (sess w).

(** A reader has its pipe promise, and a writer has its own. *)
Definition pipes_recorded (c : CrowConnection) : bool :=
  (negb (present (reader c)) || present (readableStreamClosed c)) &&
  (negb (present (writer c)) || present (writableStreamClosed c)).

(** What the methods of the page keep of the session. *)
Definition sound (w : World) : Prop :=
  pipes_recorded (sess w) = true /\ truthful w.

(** A method at the desk that keeps a property of the world. *)
Definition keeps {A : Type} (Inv : World -> Prop) (m : D A) : Prop :=
  forall d, Inv (world d) -> Inv (world (snd (m d))).

(** Any action but a [connect()] called past [toggleConnection()]. *)
Definition through_the_page (a : DeskAction) : bool :=
  match a with
  | OfSession (Connect _) => false
  | _ => true
  end.

(** The platform whose [n]-th write of an upload is rejected, the earlier
    ones being accepted. *)
Definition failing_at (n : nat) (message : string) (k : nat) : Env :=
  {| requestPort_ := Resolved 0; open_ := Resolved tt; cancel_ := Resolved tt;
     readableClosed_ := Resolved tt; close_ := Resolved tt;
     writableClosed_ := Resolved tt; portClose_ := Resolved tt;
     write_ := if Nat.eqb k n then Rejected message else Resolved tt |}.

(** The platform with every release promise resolved: what the code, which
    swallows their rejections, cannot tell from the platform itself. *)
Definition calm (env : Env) : Env :=
  {| requestPort_ := requestPort_ env; open_ := open_ env;
     cancel_ := Resolved tt; readableClosed_ := Resolved tt;
     close_ := Resolved tt; writableClosed_ := Resolved tt;
     portClose_ := Resolved tt; write_ := write_ env |}.

Definition calm_action (a : Action) : Action :=
  match a with
  | Connect env => Connect (calm env)
  | Disconnect env => Disconnect (calm env)
  | Write env data => Write (calm env) data
  | WriteLine env line => WriteLine (calm env) line
  | ReadValue r value env => ReadValue r value (calm env)
  | ReadError r message env => ReadError r message (calm env)
  end.

(** Two computations that do the same from every world. *)
Definition same {A : Type} (m m' : M A) : Prop := forall w, m w = m' w.

(** What an upload cut short by a rejected write leaves in the trace:
    it is a [log] of entries that show nothing, the texts written being the
    first of those that were to be. *)
Definition cut_short (A : Type) (r : result A * World) (w : World)
           (message : string) (texts : list string) : Prop :=
  exists ext,
    r = (Throw message, log ext w) /\ written ext = texts /\ shown ext = ""%string.


(** *** The console *)

(** The page as the methods keep it: the index is [-1] or an index of the
    history, the REPL editor is there, and no step through the history is
    under way. *)
Definition page_ok (p : Page) : Prop :=
  (-1 <= historyIndex p < history_length (commandHistory p))%Z /\
  replEditor p <> None /\
  isNavigatingHistory p = false.

(** [k] steps up into the history [h] from the text [v]: the editor shows
    the [k]-th latest command, and [v] is kept to come back to. *)
Definition browsing (h : list string) (v : string) (k : nat) (p : Page) : Prop :=
  commandHistory p = h /\
  historyIndex p = (Z.of_nat k - 1)%Z /\
  isNavigatingHistory p = false /\
  match k with
  | O => replEditor p = Some v
  | S _ =>
      replEditor p = nth_error h (List.length h - k) /\
      nth_error h (List.length h - k) <> None /\
      currentInput p = v
  end.

(** No command of the history repeats the one before it. *)
Fixpoint no_repeat (h : list string) : Prop :=
  match h with
  | a :: (b :: _) as rest => a <> b /\ no_repeat rest
  | _ => True
  end.

(** The history once [code] has been sent. *)
Definition remembered (h : list string) (code : string) : list string :=
  match nth_error h (List.length h - 1) with
  | Some l => if (l =? code)%string then h else h ++ [code]
  | None => h ++ [code]
  end.

Fixpoint times {A : Type} (n : nat) (a : A) : list A :=
  match n with
  | O => []
  | S n' => a :: times n' a
  end.

(** The same page with the text of the REPL editor in the textarea and the
    other way round. *)
Definition swapped (p : Page) (q : Page) : Prop :=
  replEditor p = Some (replInput_value q) /\
  commandHistory p = commandHistory q /\
  historyIndex p = historyIndex q /\
  currentInput p = currentInput q.

(** * Properties *)

(** ** [split] *)

Example split_lines : split LF ("a" ++ LF ++ "b" ++ LF) = ["a"; "b"; ""].
Proof. reflexivity. Qed.

Example split_empty : split LF "" = [""].
Proof. reflexivity. Qed.

Example split_overlap : split "aa" "aaa" = [""; "a"].
Proof. reflexivity. Qed.

Example split_at_end : split "ab" "xab" = ["x"; ""].
Proof. reflexivity. Qed.

Example split_no_separator : split "" "abc" = ["a"; "b"; "c"].
Proof. reflexivity. Qed.

(** A line feed is not a backslash followed by n. *)
Example split_backslash_n :
  split BACKSLASH_N ("a" ++ LF ++ "b" ++ BACKSLASH_N ++ "c") = [("a" ++ LF ++ "b")%string; "c"].
Proof. reflexivity. Qed.

(** ** Traces *)

Lemma connection_events_app (t u : list Obs) :
  connection_events (t ++ u) = connection_events t ++ connection_events u.
Proof.
  induction t as [|o t IH]; simpl; [reflexivity|].
  destruct (what o); simpl; rewrite IH; reflexivity.
Qed.

Lemma written_app (t u : list Obs) : written (t ++ u) = written t ++ written u.
Proof.
  induction t as [|o t IH]; simpl; [reflexivity|].
  destruct (what o); simpl; rewrite IH; reflexivity.
Qed.

Lemma releases_app (t u : list Obs) : releases (t ++ u) = releases t ++ releases u.
Proof. apply filter_app. Qed.

(** The marks a cancellation leaves carry no event and release nothing. *)
Lemma connection_events_done (c : CrowConnection) (l : list Reader) :
  connection_events (map (fun r => {| during := c; what := ReadDone r |}) l) = [].
Proof. induction l; simpl; auto. Qed.

Lemma written_done (c : CrowConnection) (l : list Reader) :
  written (map (fun r => {| during := c; what := ReadDone r |}) l) = [].
Proof. induction l; simpl; auto. Qed.

Lemma releases_done (c : CrowConnection) (l : list Reader) :
  releases (map (fun r => {| during := c; what := ReadDone r |}) l) = [].
Proof. induction l; simpl; auto. Qed.

Create Rewrite HintDb traces.
#[local] Hint Rewrite connection_events_app connection_events_done
  written_app written_done releases_app releases_done
  app_nil_r : traces.

(** Unfolding a method on a world in constructor form. *)
Ltac open_world w :=
  let p := fresh "p" in let r := fresh "r" in let wr := fresh "wr" in
  let ic := fresh "ic" in let rc := fresh "rc" in let wc := fresh "wc" in
  let od := fresh "od" in let oc := fresh "oc" in let sr := fresh "sr" in
  let ed := fresh "ed" in let sn := fresh "sn" in let sm := fresh "sm" in
  let tr := fresh "tr" in let ls := fresh "ls" in let fr := fresh "fr" in
  destruct w as [[[p r wr ic rc wc od oc sr] ed sn sm] tr ls fr].

Ltac open_env env :=
  let rq := fresh "rq" in let op := fresh "op" in let ca := fresh "ca" in
  let rcl := fresh "rcl" in let cl := fresh "cl" in let wcl := fresh "wcl" in
  let pc := fresh "pc" in let wo := fresh "wo" in
  destruct env as [rq op ca rcl cl wcl pc wo].

Ltac methods :=
  cbv [connect disconnect write writeLine read_catch startReading read_next
       resume_value resume_error reader_cancel writer_close port_close
       settle_reads notify swallow detached try_catch await bind ret throw
       this app assign emit alloc suspend log with_crow sess
       set_port set_reader set_writer set_isConnected set_readableStreamClosed
       set_writableStreamClosed set_shouldReconnect
       druid crow trace loops fresh fst snd
       port reader writer isConnected readableStreamClosed writableStreamClosed
       onDataReceived onConnectionChange shouldReconnect
       requestPort_ open_ cancel_ readableClosed_ close_ writableClosed_
       portClose_ write_] in *.

(** Case analysis on the variables a method branches on. *)
Ltac cases :=
  repeat (match goal with
          | |- context [match ?x with _ => _ end] => is_var x; destruct x
          | H : context [match ?x with _ => _ end] |- _ => is_var x; destruct x
          | |- context [String.eqb ?a ?b] => destruct (String.eqb a b)
          | |- context [existsb ?f ?l] => is_var l; destruct (existsb f l)
          end; cbv beta iota delta [negb andb orb] in *).

(** A closed fact about a concrete execution, by evaluation. *)
Ltac evaluated := vm_compute; first [reflexivity | discriminate | tauto].

(** ** Writing *)

Lemma write_not_connected (env : Env) (data : string) (w : World) :
  isConnected (sess w) = false -> write env data w = (Throw "Not connected", w).
Proof. open_world w. methods. intros ->. reflexivity. Qed.

Lemma step_keeps_disconnected (a : Action) (w : World) :
  keeps_disconnected a = true ->
  isConnected (sess w) = false -> isConnected (sess (step w a)) = false.
Proof.
  intros Ha Hw. open_world w. destruct a as [env|env|env d|env l|r0 v env|r0 m env];
    cbv [step waiting resumed keeps_disconnected connect_fails] in *;
    repeat match goal with
           | |- context [if existsb ?f ?l then _ else _] => destruct (existsb f l)
           end;
    open_env env; methods; subst;
    cases; try reflexivity; try discriminate.
Qed.

Lemma run_keeps_disconnected (acts : list Action) (w : World) :
  forallb keeps_disconnected acts = true ->
  isConnected (sess w) = false -> isConnected (sess (run acts w)) = false.
Proof.
  revert w. induction acts as [|a acts IH]; intros w Hacts Hw; simpl in *.
  - exact Hw.
  - apply andb_true_iff in Hacts as [Ha Hacts].
    apply IH; [exact Hacts|]. apply step_keeps_disconnected; assumption.
Qed.

(** A read fault leaves the session disconnected, whatever it was. *)
Lemma read_fault_disconnects (r : Reader) (message : string) (env : Env) (w : World) :
  waiting r w = true ->
  isConnected (sess (step w (ReadError r message env))) = false.
Proof.
  intros Hr. cbv [step]. rewrite Hr. open_world w. open_env env.
  cbv [resumed]. methods. cases; reflexivity.
Qed.

(** C6.  While the session is not connected, [write] and [writeLine] fail
    with the error "Not connected" and hand nothing to the writer: the
    world, its trace included, is as before the call.  This holds from any
    state with [isConnected] false, and from the state a read fault leaves,
    through every later action that is not a [connect()] which succeeds. *)
Theorem write_while_disconnected_fails :
  forall (w : World) (acts : list Action) (env : Env) (data : string),
    (isConnected (sess w) = false \/
     exists w0 r message fenv,
       waiting r w0 = true /\ w = step w0 (ReadError r message fenv)) ->
    forallb keeps_disconnected acts = true ->
    write env data (run acts w) = (Throw "Not connected", run acts w) /\
    writeLine env data (run acts w) = (Throw "Not connected", run acts w).
Proof.
  intros w acts env data Hw Hacts.
  assert (Hd : isConnected (sess w) = false).
  { destruct Hw as [Hw|(w0 & r & message & fenv & Hr & ->)]; [exact Hw|].
    apply read_fault_disconnects, Hr. }
  pose proof (run_keeps_disconnected acts w Hacts Hd) as H.
  split; [|unfold writeLine]; apply write_not_connected; exact H.
Qed.

Lemma write_while_disconnected_fails_witness :
  let w0 := run [Connect quiet] start in
  let w := step w0 (ReadError 0 "The device has been lost." lost) in
  let acts := [WriteLine quiet "^^i"; Connect lost; Disconnect quiet] in
  waiting 0 w0 = true /\
  write quiet "^^i" (run acts w) = (Throw "Not connected", run acts w) /\
  writeLine quiet "^^i" (run acts w) = (Throw "Not connected", run acts w).
Proof.
  split; [evaluated|].
  apply (write_while_disconnected_fails
           (step (run [Connect quiet] start)
                 (ReadError 0 "The device has been lost." lost))
           [WriteLine quiet "^^i"; Connect lost; Disconnect quiet] quiet "^^i").
  - right. exists (run [Connect quiet] start), 0, "The device has been lost.", lost.
    split; [evaluated | reflexivity].
  - evaluated.
Defined.

(** C7.  [writeLine(t)] is [write(t + "\r\n")].  On a connected session
    whose writer accepts the text, the one thing it does is hand the writer
    the characters of [t] followed by CR and LF; for "foo" these are the
    five characters 102 111 111 13 10. *)
Theorem writeLine_appends_CRLF :
  forall (env : Env) (line : string) (w : World) (wr : Writer),
    isConnected (sess w) = true ->
    writer (sess w) = Some wr ->
    write_ env = Resolved tt ->
    writeLine env line w = write env (line ++ CRLF) w /\
    writeLine env line w =
      (Ok tt, log [{| during := sess w; what := WriterWrite wr (line ++ CRLF) |}] w) /\
    written (trace (snd (writeLine env line w))) = written (trace w) ++ [(line ++ CRLF)%string] /\
    map nat_of_ascii (list_ascii_of_string ("foo" ++ CRLF)) = [102; 111; 111; 13; 10].
Proof.
  intros env line w wr Hc Hw He.
  assert (E : writeLine env line w =
              (Ok tt, log [{| during := sess w; what := WriterWrite wr (line ++ CRLF) |}] w)).
  { open_world w. open_env env. methods. subst. reflexivity. }
  split; [reflexivity|]. split; [exact E|]. split; [|reflexivity].
  rewrite E. cbv [snd log trace]. rewrite written_app. reflexivity.
Qed.

Lemma writeLine_appends_CRLF_witness :
  let w := run [Connect quiet] start in
  writeLine quiet "foo" w = write quiet ("foo" ++ CRLF) w /\
  writeLine quiet "foo" w =
    (Ok tt, log [{| during := sess w; what := WriterWrite 1 ("foo" ++ CRLF) |}] w) /\
  written (trace (snd (writeLine quiet "foo" w))) = written (trace w) ++ [("foo" ++ CRLF)%string] /\
  map nat_of_ascii (list_ascii_of_string ("foo" ++ CRLF)) = [102; 111; 111; 13; 10].
Proof.
  apply (writeLine_appends_CRLF quiet "foo" (run [Connect quiet] start) 1);
    evaluated.
Defined.

(** ** Connecting *)

(** [connect()] never throws: it returns true when the selection and the
    opening both resolve, and false otherwise. *)
Lemma connect_returns (env : Env) (w : World) :
  fst (connect env w) = Ok (negb (connect_fails env)).
Proof.
  open_world w. open_env env. cbv [connect_fails negb]. methods.
  cases; reflexivity.
Qed.

Lemma step_holds_resources (a : Action) (w : World) :
  holds_resources (sess w) = true -> holds_resources (sess (step w a)) = true.
Proof.
  intros H. destruct (isConnected (sess w)) eqn:Hc.
  - (* connected: all five are present *)
    open_world w. cbv [holds_resources present] in H. methods. subst.
    destruct p, r, wr, rc, wc; try discriminate H. clear H.
    destruct a as [env|env|env d|env l|r1 v env|r1 m env];
      cbv [step waiting resumed holds_resources present];
      open_env env; methods; cases; reflexivity.
  - (* not connected: only a connect() that succeeds changes that *)
    destruct (keeps_disconnected a) eqn:Ha.
    + unfold holds_resources.
      rewrite (step_keeps_disconnected a w Ha Hc). reflexivity.
    + destruct a as [env|env|env d|env l|r1 v env|r1 m env]; try discriminate Ha.
      open_world w. open_env env.
      cbv [keeps_disconnected connect_fails step holds_resources present] in *.
      methods. cases; try discriminate Ha; reflexivity.
Qed.

Lemma connected_holds_resources (acts : list Action) :
  holds_resources (sess (run acts start)) = true.
Proof.
  assert (G : forall w, holds_resources (sess w) = true ->
                        holds_resources (sess (run acts w)) = true).
  { induction acts as [|a acts IH]; intros w H; simpl.
    - exact H.
    - apply IH, step_holds_resources, H. }
  apply G. reflexivity.
Qed.

(** C3.  When the device selection is rejected (permission denied, nothing
    selected) or the port fails to open, [connect()] on a session that is
    not connected returns false instead of throwing, fires exactly one
    connection-change event, [{connected: false, reason: message}], and
    leaves [isConnected] false. *)
Theorem connect_failure_contract :
  forall (env : Env) (w : World) (message : string),
    isConnected (sess w) = false ->
    onConnectionChange (sess w) = true ->
    (requestPort_ env = Rejected message \/
     exists p, requestPort_ env = Resolved p /\ open_ env = Rejected message) ->
    fst (connect env w) = Ok false /\
    connection_events (trace (snd (connect env w))) =
      connection_events (trace w) ++ [(false, Some message)] /\
    isConnected (sess (snd (connect env w))) = false.
Proof.
  intros env w message Hc Ho Hfail. open_world w. open_env env. methods. subst.
  destruct Hfail as [->|[q [-> ->]]]; cbv beta iota;
    autorewrite with traces; simpl; auto.
Qed.

Lemma connect_failure_contract_witness :
  fst (connect (refused "Failed to open serial port.") start) = Ok false /\
  connection_events (trace (snd (connect (refused "Failed to open serial port.") start))) =
    connection_events (trace start) ++ [(false, Some "Failed to open serial port.")] /\
  isConnected (sess (snd (connect (refused "Failed to open serial port.") start))) = false.
Proof.
  apply (connect_failure_contract (refused "Failed to open serial port.") start
           "Failed to open serial port.");
    [evaluated | evaluated | right; exists 4; split; reflexivity].
Defined.

(** C10.  When a device is selected but its port fails to open, [connect()]
    returns false and fires [{connected: false, reason}], and the session
    keeps the handle of the port that did not open: it is not idle.  A
    [disconnect()] after that calls [close()] on that port, clears the
    field, and fires one more connection-change event. *)
Theorem failed_open_keeps_port :
  forall (env env' : Env) (w : World) (p : Port) (message : string),
    idle (sess w) ->
    onConnectionChange (sess w) = true ->
    requestPort_ env = Resolved p ->
    open_ env = Rejected message ->
    let w1 := snd (connect env w) in
    let w2 := snd (disconnect env' w1) in
    fst (connect env w) = Ok false /\
    connection_events (trace w1) = connection_events (trace w) ++ [(false, Some message)] /\
    port (sess w1) = Some p /\
    ~ idle (sess w1) /\
    fst (disconnect env' w1) = Ok tt /\
    map what (releases (trace w2)) = map what (releases (trace w1)) ++ [PortClose p] /\
    connection_events (trace w2) = connection_events (trace w1) ++ [(false, None)] /\
    idle (sess w2).
Proof.
  intros env env' w p message (Hc & Hp & Hr & Hw) Ho Hs Hopen.
  open_world w. open_env env. open_env env'. simpl in *. subst.
  methods. cases; autorewrite with traces; simpl;
    rewrite ?map_app; unfold idle; simpl; intuition congruence.
Qed.

Lemma failed_open_keeps_port_witness :
  let env := refused "Failed to open serial port." in
  let w1 := snd (connect env start) in
  let w2 := snd (disconnect env w1) in
  fst (connect env start) = Ok false /\
  connection_events (trace w1) =
    connection_events (trace start) ++ [(false, Some "Failed to open serial port.")] /\
  port (sess w1) = Some 4 /\
  ~ idle (sess w1) /\
  fst (disconnect env w1) = Ok tt /\
  map what (releases (trace w2)) = map what (releases (trace w1)) ++ [PortClose 4] /\
  connection_events (trace w2) = connection_events (trace w1) ++ [(false, None)] /\
  idle (sess w2).
Proof.
  apply (failed_open_keeps_port (refused "Failed to open serial port.")
           (refused "Failed to open serial port.") start 4
           "Failed to open serial port.");
    [repeat split | evaluated | reflexivity | reflexivity].
Defined.

(** Against C5 as stated.  With one device connected, the user picks a
    second one in the dialog of a second [connect()]: it opens, and the
    session moves over to it. *)
Lemma connect_while_connected_replaces :
  let w := run [Connect quiet] start in
  isConnected (sess w) = true /\
  port (sess w) = Some 0 /\ reader (sess w) = Some 0 /\ writer (sess w) = Some 1 /\
  fst (connect second_device w) = Ok true /\
  port (sess (snd (connect second_device w))) = Some 7 /\
  reader (sess (snd (connect second_device w))) = Some 2 /\
  writer (sess (snd (connect second_device w))) = Some 3 /\
  ~ connect_while_connected_is_rejected.
Proof.
  cbv zeta. repeat (split; [evaluated|]).
  intros H.
  assert (C : isConnected (sess (run [Connect quiet] start)) = true) by evaluated.
  pose proof (H second_device (run [Connect quiet] start) C) as E.
  apply proj1 in E. vm_compute in E. discriminate E.
Qed.

(** C5, amended.  [connect()] has no guard for a connected session and
    runs as it does from idle.  It returns false only when the selection
    or the opening fails, and then reader and writer are the ones the
    session had (the port too when no device was selected; the port field
    takes the selected handle when that one fails to open).  When both
    succeed it returns true and port, reader and writer are replaced. *)
Theorem connect_while_connected :
  forall (env : Env) (w : World),
    isConnected (sess w) = true ->
    let w' := snd (connect env w) in
    isConnected (sess w') = true /\
    match requestPort_ env, open_ env with
    | Rejected _, _ =>
        fst (connect env w) = Ok false /\
        port (sess w') = port (sess w) /\
        reader (sess w') = reader (sess w) /\ writer (sess w') = writer (sess w)
    | Resolved p, Rejected _ =>
        fst (connect env w) = Ok false /\
        port (sess w') = Some p /\
        reader (sess w') = reader (sess w) /\ writer (sess w') = writer (sess w)
    | Resolved p, Resolved _ =>
        fst (connect env w) = Ok true /\
        port (sess w') = Some p /\
        reader (sess w') = Some (fresh w) /\ writer (sess w') = Some (S (fresh w))
    end.
Proof.
  intros env w Hc. open_world w. open_env env. methods. subst.
  cases; repeat split.
Qed.

Lemma connect_while_connected_witness :
  let w := run [Connect quiet] start in
  let w' := snd (connect (refused "The port is already open.") w) in
  isConnected (sess w') = true /\
  fst (connect (refused "The port is already open.") w) = Ok false /\
  port (sess w') = Some 4 /\
  reader (sess w') = reader (sess w) /\ writer (sess w') = writer (sess w).
Proof.
  apply (connect_while_connected (refused "The port is already open.")
           (run [Connect quiet] start)); evaluated.
Defined.

(** ** Disconnecting *)

(** Against C4 as stated.  Connect, disconnect, disconnect: the observer
    sees [false] twice. *)
Lemma second_disconnect_fires_again :
  let w := run [Connect quiet; Disconnect quiet] start in
  idle (sess w) /\
  connection_events (trace w) = [(true, None); (false, None)] /\
  connection_events (trace (snd (disconnect quiet w))) =
    [(true, None); (false, None); (false, None)] /\
  ~ idle_disconnect_is_silent.
Proof.
  assert (I : idle (sess (run [Connect quiet; Disconnect quiet] start)))
    by (repeat split; evaluated).
  cbv zeta. split; [exact I|]. repeat (split; [evaluated|]).
  intros H.
  pose proof (H quiet (run [Connect quiet; Disconnect quiet] start) I) as E.
  apply proj2 in E. vm_compute in E. discriminate E.
Qed.

(** C4, amended.  On an idle session [disconnect()] returns normally, calls
    nothing on the platform and leaves the session as it is; it has no guard
    on [isConnected], so an observer that is registered is told
    [{connected: false}], without a reason, once for each such call. *)
Theorem idle_disconnect :
  forall (env : Env) (w : World),
    idle (sess w) ->
    fst (disconnect env w) = Ok tt /\
    sess (snd (disconnect env w)) = sess w /\
    trace (snd (disconnect env w)) =
      trace w ++
      (if onConnectionChange (sess w)
       then [{| during := sess w; what := ConnectionChange false None |}]
       else []).
Proof.
  intros env w (Hc & Hp & Hr & Hw). open_world w. open_env env. methods. subst.
  cases; autorewrite with traces; repeat split.
Qed.

Lemma idle_disconnect_witness :
  fst (disconnect lost start) = Ok tt /\
  sess (snd (disconnect lost start)) = sess start /\
  trace (snd (disconnect lost start)) =
    trace start ++ [{| during := sess start; what := ConnectionChange false None |}].
Proof.
  apply (idle_disconnect lost start). repeat split.
Defined.

(** ** Connect, then disconnect *)

Lemma traffic_step (a : Action) (w : World) (r : Reader) :
  is_traffic a = true ->
  isConnected (sess w) = true -> reader (sess w) = Some r ->
  sess (step w a) = sess w /\
  connection_events (trace (step w a)) = connection_events (trace w).
Proof.
  intros Ha Hc Hr. open_world w.
  destruct a as [env|env|env d|env l|r1 v env|r1 m env]; try discriminate Ha;
    cbv [step waiting resumed]; open_env env; methods; subst;
    cases; autorewrite with traces; split; reflexivity.
Qed.

Lemma traffic_run (acts : list Action) (w : World) (r : Reader) :
  forallb is_traffic acts = true ->
  isConnected (sess w) = true -> reader (sess w) = Some r ->
  sess (run acts w) = sess w /\
  connection_events (trace (run acts w)) = connection_events (trace w).
Proof.
  revert w. induction acts as [|a acts IH]; intros w Hacts Hc Hr; simpl in *.
  - split; reflexivity.
  - apply andb_true_iff in Hacts as [Ha Hacts].
    destruct (traffic_step a w r Ha Hc Hr) as [Es Et].
    destruct (IH (step w a) Hacts) as [Es' Et']; try (rewrite Es; assumption).
    split; congruence.
Qed.

(** A [connect()] that succeeds from idle. *)
Lemma connect_succeeds (env : Env) (w : World) (p : Port) :
  idle (sess w) ->
  requestPort_ env = Resolved p -> open_ env = Resolved tt ->
  fst (connect env w) = Ok true /\
  sess (snd (connect env w)) =
    set_writer (Some (S (fresh w)))
      (set_writableStreamClosed (Some p)
         (set_reader (Some (fresh w))
            (set_readableStreamClosed (Some p)
               (set_isConnected true (set_port (Some p) (sess w)))))) /\
  connection_events (trace (snd (connect env w))) =
    connection_events (trace w) ++
    (if onConnectionChange (sess w) then [(true, None)] else []).
Proof.
  intros (Hc & Hp & Hr & Hw) Hs Ho. open_world w. open_env env.
  simpl in *. subst. methods. cases; autorewrite with traces; repeat split.
Qed.

(** A [disconnect()] of a session that holds all its resources. *)
Lemma disconnect_releases (env : Env) (w : World) (p q q' : Port) (r : Reader) (wr : Writer) :
  port (sess w) = Some p -> reader (sess w) = Some r -> writer (sess w) = Some wr ->
  readableStreamClosed (sess w) = Some q -> writableStreamClosed (sess w) = Some q' ->
  fst (disconnect env w) = Ok tt /\
  idle (sess (snd (disconnect env w))) /\
  connection_events (trace (snd (disconnect env w))) =
    connection_events (trace w) ++
    (if onConnectionChange (sess w) then [(false, None)] else []).
Proof.
  intros Hp Hr Hw Hq Hq'. open_world w. open_env env. simpl in *. subst.
  unfold idle. methods. cases; autorewrite with traces; repeat split.
Qed.

(** C1.  A [connect()] that succeeds from idle, then any writes and
    incoming chunks, then [disconnect()]: both calls return normally, the
    session is idle again ([isConnected] false; port, reader and writer
    null), and the observer has seen exactly two connection-change events,
    [{connected: true}] without a reason and then [{connected: false}] with
    the reason undefined. *)
Theorem connect_then_disconnect :
  forall (env env' : Env) (w : World) (p : Port) (traffic : list Action),
    idle (sess w) ->
    onConnectionChange (sess w) = true ->
    requestPort_ env = Resolved p ->
    open_ env = Resolved tt ->
    forallb is_traffic traffic = true ->
    let w1 := snd (connect env w) in
    let w2 := run traffic w1 in
    let w3 := snd (disconnect env' w2) in
    fst (connect env w) = Ok true /\
    fst (disconnect env' w2) = Ok tt /\
    idle (sess w3) /\
    connection_events (trace w3) =
      connection_events (trace w) ++ [(true, None); (false, None)].
Proof.
  intros env env' w p traffic Hidle Ho Hs Hopen Htraffic w1 w2 w3.
  destruct (connect_succeeds env w p Hidle Hs Hopen) as (R1 & S1 & T1).
  fold w1 in S1, T1. rewrite Ho in T1.
  assert (C1 : isConnected (sess w1) = true) by (rewrite S1; reflexivity).
  assert (Rd : reader (sess w1) = Some (fresh w)) by (rewrite S1; reflexivity).
  destruct (traffic_run traffic w1 (fresh w) Htraffic C1 Rd) as [S2 T2].
  fold w2 in S2, T2.
  destruct (disconnect_releases env' w2 p p p (fresh w) (S (fresh w)))
    as (R3 & I3 & T3); try (rewrite S2, S1; reflexivity).
  fold w3 in I3, T3.
  assert (O2 : onConnectionChange (sess w2) = true)
    by (rewrite S2, S1; exact Ho).
  rewrite O2, T2, T1, <- app_assoc in T3.
  repeat split; try assumption; apply I3.
Qed.

Lemma connect_then_disconnect_witness :
  let traffic := [WriteLine quiet "^^i"; ReadValue 0 "hello" lost; Write lost "x"] in
  let w1 := snd (connect quiet start) in
  let w2 := run traffic w1 in
  let w3 := snd (disconnect lost w2) in
  fst (connect quiet start) = Ok true /\
  fst (disconnect lost w2) = Ok tt /\
  idle (sess w3) /\
  connection_events (trace w3) =
    connection_events (trace start) ++ [(true, None); (false, None)].
Proof.
  apply (connect_then_disconnect quiet lost start 0
           [WriteLine quiet "^^i"; ReadValue 0 "hello" lost; Write lost "x"]);
    [repeat split | evaluated | reflexivity | reflexivity | evaluated].
Defined.

(** ** The read loop *)

Lemma visible_app (t u : list Obs) : visible (t ++ u) = visible t ++ visible u.
Proof. apply filter_app. Qed.

Lemma visible_done (c : CrowConnection) (l : list Reader) :
  visible (map (fun r => {| during := c; what := ReadDone r |}) l) = [].
Proof. induction l; simpl; auto. Qed.

#[local] Hint Rewrite visible_app visible_done : traces.

(** C2.  A [read()] that rejects on a connected session runs the [catch]
    block to its end, whichever of the release promises reject.  What it does, in order
    and with the session as it is at each step: it reports the error; with
    [isConnected] already false it cancels the reader and closes the writer
    (each if present); with reader and writer nulled it closes the port (if
    present); with the port nulled too it fires the one connection-change
    event, [{connected: false}] with the non-empty reason.  The session ends
    idle. *)
Theorem read_fault_teardown :
  forall (env : Env) (error : string) (w : World),
    isConnected (sess w) = true ->
    onConnectionChange (sess w) = true ->
    let c0 := sess w in
    let c1 := set_shouldReconnect (Some false) (set_isConnected false c0) in
    let c2 := set_writer None (set_reader None c1) in
    let c3 := set_port None c2 in
    let w' := snd (resume_error env error w) in
    fst (resume_error env error w) = Ok tt /\
    (exists ext,
        trace w' = trace w ++ ext /\
        visible ext =
          [{| during := c0; what := ConsoleError "Read error:" error |}] ++
          opt (fun r => {| during := c1; what := ReaderCancel r |}) (reader c0) ++
          opt (fun x => {| during := c1; what := WriterClose x |}) (writer c0) ++
          opt (fun p => {| during := c2; what := PortClose p |}) (port c0) ++
          [{| during := c3; what := ConnectionChange false (Some unexpected) |}] /\
        connection_events ext = [(false, Some unexpected)]) /\
    unexpected <> "" /\
    isConnected c1 = false /\
    reader c2 = None /\ writer c2 = None /\
    sess w' = c3 /\
    idle c3.
Proof.
  intros env error w Hc Ho. open_world w. open_env env. simpl in Hc, Ho. subst.
  cbv zeta. unfold idle. methods.
  cases;
    (split; [reflexivity|]);
    (split;
     [eexists; split;
      [rewrite <- ?app_assoc; reflexivity
      |cbv [opt]; autorewrite with traces; split; reflexivity]
     |repeat split; discriminate]).
Qed.

Lemma read_fault_teardown_witness :
  let w := run [Connect quiet] start in
  let c0 := sess w in
  let c1 := set_shouldReconnect (Some false) (set_isConnected false c0) in
  let c2 := set_writer None (set_reader None c1) in
  let c3 := set_port None c2 in
  let w' := snd (resume_error lost "The device has been lost." w) in
  fst (resume_error lost "The device has been lost." w) = Ok tt /\
  (exists ext,
      trace w' = trace w ++ ext /\
      visible ext =
        [{| during := c0; what := ConsoleError "Read error:" "The device has been lost." |}] ++
        opt (fun r => {| during := c1; what := ReaderCancel r |}) (reader c0) ++
        opt (fun x => {| during := c1; what := WriterClose x |}) (writer c0) ++
        opt (fun p => {| during := c2; what := PortClose p |}) (port c0) ++
        [{| during := c3; what := ConnectionChange false (Some unexpected) |}] /\
      connection_events ext = [(false, Some unexpected)]) /\
  unexpected <> "" /\
  isConnected c1 = false /\
  reader c2 = None /\ writer c2 = None /\
  sess w' = c3 /\
  idle c3.
Proof.
  apply (read_fault_teardown lost "The device has been lost." (run [Connect quiet] start));
    evaluated.
Defined.

(** *** The clean end of the stream *)

Lemma done_marks_ok (c : CrowConnection) (l : list Reader) :
  isConnected c = false ->
  forallb done_ok (map (fun r => {| during := c; what := ReadDone r |}) l) = true.
Proof.
  intros Hc. induction l as [|r l IH]; simpl; [reflexivity|].
  rewrite IH. unfold done_ok. simpl. rewrite Hc. reflexivity.
Qed.

Ltac done_ok_trace :=
  rewrite ?forallb_app;
  repeat rewrite done_marks_ok by reflexivity;
  simpl;
  repeat match goal with
         | H : forallb done_ok _ = true |- _ => rewrite H
         end;
  reflexivity.

Lemma step_done_ok (a : Action) (w : World) :
  forallb done_ok (trace w) = true -> forallb done_ok (trace (step w a)) = true.
Proof.
  intros H. open_world w.
  destruct a as [env|env|env d|env l|r1 v env|r1 m env];
    cbv [step waiting resumed];
    repeat match goal with
           | |- context [if existsb ?f ?l then _ else _] => destruct (existsb f l)
           end;
    open_env env; methods; cases; done_ok_trace.
Qed.

Lemma run_done_ok (acts : list Action) (w : World) :
  forallb done_ok (trace w) = true -> forallb done_ok (trace (run acts w)) = true.
Proof.
  revert w. induction acts as [|a acts IH]; intros w H; simpl.
  - exact H.
  - apply IH, step_done_ok, H.
Qed.

(** The end of a loop on [done] changes no field of the session and shows
    nothing to anybody. *)
Lemma settle_reads_silent (r : Reader) (w : World) :
  fst (settle_reads r w) = Ok tt /\
  druid (snd (settle_reads r w)) = druid w /\
  visible (trace (snd (settle_reads r w))) = visible (trace w) /\
  connection_events (trace (snd (settle_reads r w))) = connection_events (trace w).
Proof.
  open_world w. cbv [settle_reads fst snd druid trace sess crow].
  autorewrite with traces. repeat split.
Qed.

Lemma ends_and_events_app (t u : list Obs) :
  ends_and_events (t ++ u) = ends_and_events t ++ ends_and_events u.
Proof.
  induction t as [|o t IH]; simpl; [reflexivity|].
  destruct (what o); simpl; rewrite IH; reflexivity.
Qed.

Lemma ends_and_events_done (c : CrowConnection) (l : list Reader) :
  ends_and_events (map (fun r => {| during := c; what := ReadDone r |}) l) =
  map ReadDone l.
Proof. induction l as [|r l IH]; simpl; [reflexivity|]. rewrite IH. reflexivity. Qed.

#[local] Hint Rewrite ends_and_events_app ends_and_events_done : traces.

(** In what [disconnect()] adds to the trace, the loops that wait on the
    reader end first, and the connection-change event comes after them. *)
Lemma disconnect_event_last (env : Env) (w : World) :
  exists ext,
    trace (snd (disconnect env w)) = trace w ++ ext /\
    ends_and_events ext =
      map ReadDone (listening w) ++
      match fst (disconnect env w), onConnectionChange (sess w) with
      | Ok _, true => [ConnectionChange false None]
      | _, _ => []
      end.
Proof.
  open_world w. open_env env. cbv [listening]. methods. cases;
    (eexists; split;
     [first [rewrite <- ?app_assoc; reflexivity | symmetry; apply app_nil_r]|]);
    autorewrite with traces; reflexivity.
Qed.

(** Connect, then disconnect: the fifth entry of the trace is the end of
    the loop, and the one event before it is that of the [connect()]. *)
Lemma connect_disconnect_trace :
  exists o,
    nth_error (trace (run [Connect quiet; Disconnect quiet] start)) 4 = Some o /\
    what o = ReadDone 0 /\
    connection_events (firstn 4 (trace (run [Connect quiet; Disconnect quiet] start))) =
      [(true, None)].
Proof. vm_compute. eexists. split; [reflexivity|]. split; reflexivity. Qed.

(** Against C8 as stated.  The loop ends when [disconnect()] cancels the
    reader (line 117); the event of that [disconnect()] is fired by its last
    statement (line 135). *)
Lemma end_of_stream_precedes_event :
  ends_and_events (trace (run [Connect quiet; Disconnect quiet] start)) =
    [ConnectionChange true None; ReadDone 0; ConnectionChange false None] /\
  ~ end_of_stream_follows_event.
Proof.
  split; [evaluated|].
  intros H. destruct connect_disconnect_trace as (o & E1 & E2 & E3).
  destruct (H _ _ _ _ E1 E2) as [_ [reason Hin]].
  rewrite E3 in Hin. destruct Hin as [E|[]]. discriminate E.
Qed.

(** C8, amended.  In every execution, a loop that sees the clean end of the
    stream sees it with [isConnected] already false, and its exit is
    silent: it changes no field and fires no event.  The end of the stream
    comes from a cancellation of the reader; [disconnect()] cancels after it
    has set [isConnected] to false and before it fires its own event, which
    therefore follows the exit of the loop. *)
Theorem clean_end_of_stream :
  forall (acts : list Action) (env : Env),
    let w := run acts start in
    (forall (o : Obs) (r : Reader),
        In o (trace w) -> what o = ReadDone r -> isConnected (during o) = false) /\
    (forall r : Reader,
        fst (settle_reads r w) = Ok tt /\
        druid (snd (settle_reads r w)) = druid w /\
        visible (trace (snd (settle_reads r w))) = visible (trace w) /\
        connection_events (trace (snd (settle_reads r w))) =
          connection_events (trace w)) /\
    (exists ext,
        trace (snd (disconnect env w)) = trace w ++ ext /\
        ends_and_events ext =
          map ReadDone (listening w) ++
          match fst (disconnect env w), onConnectionChange (sess w) with
          | Ok _, true => [ConnectionChange false None]
          | _, _ => []
          end).
Proof.
  intros acts env w. split; [|split].
  - intros o r Hin Ho.
    assert (H : forallb done_ok (trace w) = true)
      by (apply run_done_ok; reflexivity).
    rewrite forallb_forall in H. specialize (H o Hin).
    unfold done_ok in H. rewrite Ho in H.
    destruct (isConnected (during o)); [discriminate H | reflexivity].
  - intros r. apply settle_reads_silent.
  - apply disconnect_event_last.
Qed.

Lemma clean_end_of_stream_witness :
  forallb done_ok (trace (run [Connect quiet; Disconnect quiet] start)) = true /\
  exists o,
    nth_error (trace (run [Connect quiet; Disconnect quiet] start)) 4 = Some o /\
    what o = ReadDone 0 /\
    isConnected (during o) = false.
Proof.
  split; [evaluated|].
  destruct connect_disconnect_trace as (o & E1 & E2 & _).
  exists o. split; [exact E1|]. split; [exact E2|].
  apply (proj1 (clean_end_of_stream [Connect quiet; Disconnect quiet] quiet) o 0).
  - apply nth_error_In with (n := 4). exact E1.
  - exact E2.
Defined.

(** ** Uploads *)

Lemma log_log (a b : list Obs) (w : World) : log b (log a w) = log (a ++ b) w.
Proof. destruct w. cbv [log trace druid loops fresh]. rewrite app_assoc. reflexivity. Qed.

Lemma sess_log (o : list Obs) (w : World) : sess (log o w) = sess w.
Proof. destruct w. reflexivity. Qed.

Lemma writeLine_ok (env : Env) (line : string) (w : World) (wr : Writer) :
  isConnected (sess w) = true -> writer (sess w) = Some wr ->
  write_ env = Resolved tt ->
  writeLine env line w =
    (Ok tt, log [{| during := sess w; what := WriterWrite wr (line ++ CRLF) |}] w).
Proof. intros Hc Hw He. open_world w. open_env env. methods. subst. reflexivity. Qed.

Lemma send_lines_ok (envs : nat -> Env) (lines : list string) :
  forall (k : nat) (w : World) (wr : Writer),
    isConnected (sess w) = true -> writer (sess w) = Some wr ->
    (forall i, write_ (envs i) = Resolved tt) ->
    send_lines envs k lines w =
      (Ok tt, log (flat_map (line_sent (sess w) wr) lines) w).
Proof.
  induction lines as [|line rest IH]; intros k w wr Hc Hw He; simpl.
  - destruct w. cbv [ret log trace druid loops fresh]. rewrite app_nil_r. reflexivity.
  - unfold bind at 1. rewrite (writeLine_ok _ _ _ wr Hc Hw (He k)).
    unfold bind at 1. unfold delay, emit. rewrite log_log.
    rewrite (IH (S k) _ wr); try assumption.
    rewrite log_log. reflexivity.
Qed.

Lemma written_lines (c : CrowConnection) (wr : Writer) (lines : list string) :
  written (flat_map (line_sent c wr) lines) = map (fun l => (l ++ CRLF)%string) lines.
Proof. induction lines as [|l lines IH]; simpl; [reflexivity|]. rewrite IH. reflexivity. Qed.

Lemma send_script_run (envs : nat -> Env) (sep code last : string) (w : World) (wr : Writer) :
  isConnected (sess w) = true -> writer (sess w) = Some wr ->
  (forall i, write_ (envs i) = Resolved tt) ->
  send_script envs sep code last w =
    (Ok tt, log (script_sent (sess w) wr (split sep code) last) w).
Proof.
  intros Hc Hw He. unfold send_script.
  unfold bind at 1. rewrite (writeLine_ok _ _ _ wr Hc Hw (He 0)).
  unfold bind at 1. unfold delay at 1, emit. rewrite log_log.
  unfold bind at 1. rewrite (send_lines_ok envs _ 1 _ wr);
    rewrite ?sess_log; try assumption.
  rewrite log_log.
  unfold bind at 1. rewrite (writeLine_ok _ _ _ wr);
    rewrite ?sess_log; try assumption; try apply He.
  rewrite log_log. unfold delay, emit. rewrite log_log, sess_log.
  unfold script_sent. rewrite <- !app_assoc. reflexivity.
Qed.

Lemma written_script (c : CrowConnection) (wr : Writer) (lines : list string) (last : string) :
  written (script_sent c wr lines last) = upload_pattern lines last.
Proof.
  unfold script_sent, upload_pattern. simpl. f_equal.
  rewrite written_app, written_lines, map_app. reflexivity.
Qed.

Lemma send_script_ok (envs : nat -> Env) (sep code last : string) (w : World) (wr : Writer) :
  isConnected (sess w) = true -> writer (sess w) = Some wr ->
  (forall i, write_ (envs i) = Resolved tt) ->
  fst (send_script envs sep code last w) = Ok tt /\
  druid (snd (send_script envs sep code last w)) = druid w /\
  written (trace (snd (send_script envs sep code last w))) =
    written (trace w) ++ upload_pattern (split sep code) last.
Proof.
  intros Hc Hw He. rewrite (send_script_run envs sep code last w wr Hc Hw He).
  destruct w as [d tr ls fr]. cbv [fst snd log trace druid].
  split; [reflexivity|]. split; [reflexivity|].
  rewrite written_app, written_script. reflexivity.
Qed.

Lemma written_log (o : list Obs) (w : World) :
  written (trace (log o w)) = written (trace w) ++ written o.
Proof. destruct w. cbv [log trace]. apply written_app. Qed.

Lemma runScript_run (envs : nat -> Env) (w : World) (wr : Writer) (code : string) :
  isConnected (sess w) = true -> writer (sess w) = Some wr ->
  editor (druid w) = Some code ->
  (forall i, write_ (envs i) = Resolved tt) ->
  runScript envs w =
    (Ok tt,
     log ([said (sess w) ("Running " ++ scriptName (druid w) ++ "...")] ++
          script_sent (sess w) wr (split LF code) "^^e" ++
          [said (sess w) ("Ran " ++ scriptName (druid w) ++ LF)]) w).
Proof.
  intros Hc Hw Hed He. unfold runScript, this, app, outputLine, emit.
  unfold bind at 1. unfold bind at 1. rewrite Hc, Hed. unfold bind at 1.
  unfold try_catch. unfold bind at 1.
  rewrite (send_script_run envs LF code "^^e" _ wr);
    rewrite ?sess_log; try assumption.
  rewrite !log_log. reflexivity.
Qed.

Lemma uploadScript_run (envs : nat -> Env) (w : World) (wr : Writer) (code : string) :
  isConnected (sess w) = true -> writer (sess w) = Some wr ->
  editor (druid w) = Some code ->
  (forall i, write_ (envs i) = Resolved tt) ->
  uploadScript envs w =
    setModified false
      (log ([said (sess w) ("Uploading " ++ scriptName (druid w) ++ "...")] ++
            script_sent (sess w) wr (split LF code) "^^w") w).
Proof.
  intros Hc Hw Hed He. unfold uploadScript, this, app, outputLine, emit.
  unfold bind at 1. unfold bind at 1. rewrite Hc, Hed. unfold bind at 1.
  unfold try_catch. unfold bind at 1.
  rewrite (send_script_run envs LF code "^^w" _ wr);
    rewrite ?sess_log; try assumption.
  rewrite !log_log. unfold said. reflexivity.
Qed.

Lemma uploadFileFromDrop_run (envs : nat -> Env) (w : World) (wr : Writer)
      (file : File) (t : string) :
  isConnected (sess w) = true -> writer (sess w) = Some wr ->
  text file = Resolved t ->
  (forall i, write_ (envs i) = Resolved tt) ->
  uploadFileFromDrop envs file w =
    (Ok tt,
     log ([said (sess w) ("Uploading " ++ name file ++ "...")] ++
          script_sent (sess w) wr (split BACKSLASH_N t) "^^w") w).
Proof.
  intros Hc Hw Ht He. unfold uploadFileFromDrop, this, outputLine, emit.
  unfold bind at 1. rewrite Hc, Ht. cbv [negb await].
  unfold try_catch, bind at 1, ret. unfold bind at 1.
  rewrite (send_script_run envs BACKSLASH_N t "^^w" _ wr);
    rewrite ?sess_log; try assumption.
  rewrite !log_log. unfold said. reflexivity.
Qed.

Lemma written_said (c : CrowConnection) (text : string) : written [said c text] = [].
Proof. reflexivity. Qed.

(** [runScript] sends the text of the editor split at line feeds. *)
Lemma runScript_pattern (envs : nat -> Env) (w : World) (wr : Writer) (code : string) :
  isConnected (sess w) = true -> writer (sess w) = Some wr ->
  editor (druid w) = Some code ->
  (forall i, write_ (envs i) = Resolved tt) ->
  fst (runScript envs w) = Ok tt /\
  written (trace (snd (runScript envs w))) =
    written (trace w) ++ upload_pattern (split LF code) "^^e".
Proof.
  intros Hc Hw Hed He. rewrite (runScript_run envs w wr code Hc Hw Hed He).
  cbv [fst snd]. split; [reflexivity|].
  rewrite written_log, !written_app, written_script, !written_said.
  rewrite app_nil_r. reflexivity.
Qed.

(** [uploadScript] does the same and ends with the write-to-flash line. *)
Lemma uploadScript_pattern (envs : nat -> Env) (w : World) (wr : Writer) (code : string) :
  isConnected (sess w) = true -> writer (sess w) = Some wr ->
  editor (druid w) = Some code ->
  (forall i, write_ (envs i) = Resolved tt) ->
  fst (uploadScript envs w) = Ok tt /\
  written (trace (snd (uploadScript envs w))) =
    written (trace w) ++ upload_pattern (split LF code) "^^w".
Proof.
  intros Hc Hw Hed He. rewrite (uploadScript_run envs w wr code Hc Hw Hed He).
  cbv [fst snd setModified]. split; [reflexivity|].
  change (trace {| druid := _; trace := ?t; loops := _; fresh := _ |}) with t.
  rewrite written_log, !written_app, written_script, !written_said.
  reflexivity.
Qed.

(** [uploadFileFromDrop] sends the text of the file split at each
    backslash followed by n, which is what its literal ['\\n'] denotes. *)
Lemma uploadFileFromDrop_pattern (envs : nat -> Env) (w : World) (wr : Writer)
      (file : File) (t : string) :
  isConnected (sess w) = true -> writer (sess w) = Some wr ->
  text file = Resolved t ->
  (forall i, write_ (envs i) = Resolved tt) ->
  fst (uploadFileFromDrop envs file w) = Ok tt /\
  written (trace (snd (uploadFileFromDrop envs file w))) =
    written (trace w) ++ upload_pattern (split BACKSLASH_N t) "^^w".
Proof.
  intros Hc Hw Ht He. rewrite (uploadFileFromDrop_run envs w wr file t Hc Hw Ht He).
  cbv [fst snd]. split; [reflexivity|].
  rewrite written_log, !written_app, written_script, !written_said.
  reflexivity.
Qed.

(** C9.  A script of two lines, dropped as a file on a connected session:
    [uploadFileFromDrop] sends the begin-upload line, then the whole text
    in one [writeLine] with the line feed inside it, then the
    write-to-flash line.  The pattern of C9 has the two lines sent one by
    one, which is what [uploadScript] and [runScript] send for the same text
    in the editor. *)
Theorem uploadFileFromDrop_sends_one_line :
  let w := run [Connect quiet] start in
  let file := {| name := "first.lua"; text := Resolved two_lines |} in
  split LF two_lines = ["x = 1"; "y = 2"] /\
  written (trace (snd (uploadFileFromDrop (fun _ => quiet) file w))) =
    [("^^s" ++ CRLF)%string; (two_lines ++ CRLF)%string; ("^^w" ++ CRLF)%string] /\
  written (trace (snd (uploadFileFromDrop (fun _ => quiet) file w))) <>
    upload_pattern (split LF two_lines) "^^w" /\
  written (trace (snd (uploadScript (fun _ => quiet) (editing two_lines w)))) =
    upload_pattern (split LF two_lines) "^^w" /\
  written (trace (snd (runScript (fun _ => quiet) (editing two_lines w)))) =
    upload_pattern (split LF two_lines) "^^e".
Proof.
  cbv zeta. split; [vm_compute; reflexivity|].
  split; [vm_compute; reflexivity|].
  split; [vm_compute; discriminate|].
  split; vm_compute; reflexivity.
Qed.

(** * More of the program *)

(** * More of the code *)

(** ** Rejections that are swallowed *)

Lemma same_refl {A} (m : M A) : same m m.
Proof. intros w. reflexivity. Qed.

Lemma same_bind {A B} (m m' : M A) (k k' : A -> M B) :
  same m m' -> (forall a, same (k a) (k' a)) -> same (bind m k) (bind m' k').
Proof.
  intros Hm Hk w. unfold bind. rewrite Hm.
  destruct (m' w) as [[a|e] w']; [apply Hk | reflexivity].
Qed.

Lemma same_try_catch {A} (b b' : M A) (h h' : string -> M A) :
  same b b' -> (forall e, same (h e) (h' e)) ->
  same (try_catch b h) (try_catch b' h').
Proof.
  intros Hb Hh w. unfold try_catch. rewrite Hb.
  destruct (b' w) as [[a|e] w']; [reflexivity | apply Hh].
Qed.

Lemma await_calm (o : outcome unit) (e : Effect) :
  same (swallow (emit e;; await o)) (swallow (emit e;; await (Resolved tt))).
Proof.
  intros w. unfold swallow, try_catch, bind, emit, await, ret, throw.
  destruct o as [[]|x]; reflexivity.
Qed.

Lemma reader_cancel_calm (env : Env) (r : Reader) :
  same (swallow (reader_cancel env r)) (swallow (reader_cancel (calm env) r)).
Proof.
  intros w. unfold swallow, try_catch, reader_cancel, bind, emit, settle_reads,
              await, ret, throw, calm, cancel_.
  destruct env as [? ? [[]|x] ? ? ? ? ?]; reflexivity.
Qed.

Lemma writer_close_calm (env : Env) (x : Writer) :
  same (swallow (writer_close env x)) (swallow (writer_close (calm env) x)).
Proof. apply await_calm. Qed.

Lemma port_close_calm (env : Env) (p : Port) :
  same (swallow (port_close env p)) (swallow (port_close (calm env) p)).
Proof. apply await_calm. Qed.

(** Congruence, down to the releases. *)
Ltac calmly :=
  repeat first
    [ match goal with
      | |- same ?m ?m => apply same_refl
      | |- same (swallow (reader_cancel _ _)) _ => apply reader_cancel_calm
      | |- same (swallow (writer_close _ _)) _ => apply writer_close_calm
      | |- same (swallow (port_close _ _)) _ => apply port_close_calm
      | |- same (swallow _) _ => apply await_calm
      | |- same (match ?x with _ => _ end) _ => destruct x
      | |- same (await _) _ => intros ?; reflexivity
      end
    | apply same_bind; [|intros ?]
    | apply same_try_catch; [|intros ?] ].

Lemma disconnect_calm (env : Env) : same (disconnect env) (disconnect (calm env)).
Proof. unfold disconnect. calmly. Qed.

Lemma read_catch_calm (env : Env) (error : string) :
  same (read_catch env error) (read_catch (calm env) error).
Proof. unfold read_catch. calmly. Qed.

Lemma startReading_calm (env : Env) : same (startReading env) (startReading (calm env)).
Proof. unfold startReading. calmly. Qed.

Lemma resume_value_calm (env : Env) (value : string) :
  same (resume_value env value) (resume_value (calm env) value).
Proof. unfold resume_value. calmly. Qed.

Lemma connect_calm (env : Env) : same (connect env) (connect (calm env)).
Proof.
  unfold connect. calmly.
Qed.

(** The session cannot tell a platform from the calm one. *)
Lemma step_calm (w : World) (a : Action) : step w a = step w (calm_action a).
Proof.
  destruct a as [env|env|env d|env l|r v env|r m env]; simpl.
  - rewrite (connect_calm env w). reflexivity.
  - rewrite (disconnect_calm env w). reflexivity.
  - reflexivity.
  - reflexivity.
  - destruct (waiting r w); [rewrite (resume_value_calm env v)|]; reflexivity.
  - destruct (waiting r w);
      [unfold resume_error; rewrite (read_catch_calm env m)|]; reflexivity.
Qed.

(** ** The session *)

Ltac calm_cases a w :=
  rewrite (step_calm w a);
  open_world w;
  let env := fresh "env" in
  destruct a as [env|env|env ?|env ?|? ? env|? ? env];
  cbv [calm_action calm step waiting resumed];
  open_env env; methods; cases.

Lemma step_pipes_recorded (a : Action) (w : World) :
  pipes_recorded (sess w) = true -> pipes_recorded (sess (step w a)) = true.
Proof.
  intros H. cbv [pipes_recorded present] in *. revert H. calm_cases a w;
    intros H; try reflexivity; try discriminate H.
Qed.

Lemma run_pipes_recorded (acts : list Action) (w : World) :
  pipes_recorded (sess w) = true -> pipes_recorded (sess (run acts w)) = true.
Proof.
  revert w. induction acts as [|a acts IH]; intros w H; simpl.
  - exact H.
  - apply IH, step_pipes_recorded, H.
Qed.

Lemma disconnect_ends_idle (env : Env) (w : World) :
  pipes_recorded (sess w) = true ->
  fst (disconnect env w) = Ok tt /\ idle (sess (snd (disconnect env w))).
Proof.
  intros H. rewrite (disconnect_calm env w). open_world w. open_env env.
  cbv [pipes_recorded present idle calm] in *.
  methods. cases; try discriminate H; repeat split.
Qed.



(** X2.  Whatever has happened to a session since the page was loaded,
    [disconnect()] returns normally and leaves it idle. *)
Theorem disconnect_always_ends_idle :
  forall (acts : list Action) (env : Env),
    fst (disconnect env (run acts start)) = Ok tt /\
    idle (sess (snd (disconnect env (run acts start)))).
Proof.
  intros acts env. apply disconnect_ends_idle, run_pipes_recorded. reflexivity.
Qed.

(** X3.  A write the platform rejects is reported to the caller with the
    platform's message and does not end the connection: the session is as
    it was, and a later write that is accepted reaches the same writer. *)
Theorem write_failure_keeps_session :
  forall (env env' : Env) (data line : string) (w : World) (wr : Writer)
         (message : string),
    isConnected (sess w) = true ->
    writer (sess w) = Some wr ->
    write_ env = Rejected message ->
    write_ env' = Resolved tt ->
    let w1 := snd (write env data w) in
    fst (write env data w) = Throw message /\
    sess w1 = sess w /\
    written (trace w1) = written (trace w) ++ [data] /\
    fst (writeLine env' line w1) = Ok tt /\
    written (trace (snd (writeLine env' line w1))) =
      written (trace w) ++ [data; (line ++ CRLF)%string].
Proof.
  intros env env' data line w wr message Hc Hw He He'.
  open_world w. open_env env. open_env env'. simpl in *. subst.
  methods. autorewrite with traces. simpl. rewrite <- app_assoc.
  repeat split.
Qed.

Lemma write_failure_keeps_session_witness :
  let w := run [Connect quiet] start in
  let env := failing_at 0 "The device has been lost." 0 in
  let w1 := snd (write env "a" w) in
  fst (write env "a" w) = Throw "The device has been lost." /\
  sess w1 = sess w /\
  written (trace w1) = written (trace w) ++ ["a"] /\
  fst (writeLine quiet "b" w1) = Ok tt /\
  written (trace (snd (writeLine quiet "b" w1))) =
    written (trace w) ++ ["a"; ("b" ++ CRLF)%string].
Proof.
  apply (write_failure_keeps_session (failing_at 0 "The device has been lost." 0)
           quiet "a" "b" (run [Connect quiet] start) 1 "The device has been lost.");
    evaluated.
Defined.

Lemma data_events_app (t u : list Obs) :
  data_events (t ++ u) = data_events t ++ data_events u.
Proof.
  induction t as [|o t IH]; simpl; [reflexivity|].
  destruct (what o); simpl; rewrite IH; reflexivity.
Qed.

Lemma waiting_again (r : Reader) (l : list Reader) :
  existsb (Nat.eqb r) (l ++ [r]) = true.
Proof.
  rewrite existsb_app. simpl. rewrite Nat.eqb_refl, orb_true_r. reflexivity.
Qed.

Lemma chunk_delivered (r : Reader) (value : string) (env : Env) (w : World) :
  isConnected (sess w) = true -> reader (sess w) = Some r ->
  onDataReceived (sess w) = true -> waiting r w = true ->
  sess (step w (ReadValue r value env)) = sess w /\
  waiting r (step w (ReadValue r value env)) = true /\
  data_events (trace (step w (ReadValue r value env))) =
    data_events (trace w) ++ (if (value =? "")%string then [] else [value]).
Proof.
  intros Hc Hr Ho Hw. cbv [step]. rewrite Hw. clear Hw.
  open_world w. open_env env. cbv [resumed waiting]. methods. subst.
  destruct (value =? "")%string; cbv [negb andb];
    rewrite ?data_events_app, ?waiting_again; simpl; rewrite ?app_nil_r;
    repeat split.
Qed.

(** X4.  While the session is connected and its loop waits on its reader,
    the chunks the platform delivers are handed to the data observer once
    each and in order, except the empty ones; the session is unchanged and
    the loop goes on waiting. *)
Theorem chunks_delivered_in_order :
  forall (chunks : list (string * Env)) (r : Reader) (w : World),
    isConnected (sess w) = true ->
    reader (sess w) = Some r ->
    onDataReceived (sess w) = true ->
    waiting r w = true ->
    let w' := run (map (fun c => ReadValue r (fst c) (snd c)) chunks) w in
    sess w' = sess w /\
    waiting r w' = true /\
    data_events (trace w') =
      data_events (trace w) ++
      filter (fun v => negb (v =? "")%string) (map fst chunks).
Proof.
  induction chunks as [|[v env] chunks IH]; intros r w Hc Hr Ho Hw; cbv zeta.
  - simpl. rewrite app_nil_r. repeat split. exact Hw.
  - destruct (chunk_delivered r v env w Hc Hr Ho Hw) as (Es & Ew & Ed).
    destruct (IH r (step w (ReadValue r v env))) as (Es' & Ew' & Ed');
      try (rewrite Es; assumption); try assumption.
    change (run (map (fun c => ReadValue r (fst c) (snd c)) ((v, env) :: chunks)) w)
      with (run (map (fun c => ReadValue r (fst c) (snd c)) chunks)
                (step w (ReadValue r v env))).
    split; [congruence|]. split; [exact Ew'|].
    rewrite Ed', Ed, <- app_assoc. f_equal. simpl.
    destruct (v =? "")%string; reflexivity.
Qed.

Lemma chunks_delivered_in_order_witness :
  let w := run [Connect quiet] start in
  let w' := run (map (fun c => ReadValue 0 (fst c) (snd c))
                     [("he", quiet); ("", lost); ("llo", quiet)]) w in
  sess w' = sess w /\
  waiting 0 w' = true /\
  data_events (trace w') =
    data_events (trace w) ++
    filter (fun v => negb (v =? "")%string) (map fst [("he", quiet); ("", lost); ("llo", quiet)]).
Proof.
  apply (chunks_delivered_in_order [("he", quiet); ("", lost); ("llo", quiet)] 0
           (run [Connect quiet] start)); evaluated.
Defined.

(** X5.  Whatever the state of the session, a [connect()] whose selection
    and opening succeed leaves it connected with a new writer: the next
    [writeLine] the platform accepts hands that writer the line and CRLF. *)
Theorem connect_restores_writing :
  forall (env env' : Env) (line : string) (w : World) (p : Port),
    requestPort_ env = Resolved p ->
    open_ env = Resolved tt ->
    write_ env' = Resolved tt ->
    let w1 := snd (connect env w) in
    fst (connect env w) = Ok true /\
    isConnected (sess w1) = true /\
    port (sess w1) = Some p /\
    writeLine env' line w1 =
      (Ok tt,
       log [{| during := sess w1; what := WriterWrite (S (fresh w)) (line ++ CRLF) |}] w1).
Proof.
  intros env env' line w p Hs Ho He. cbv zeta.
  rewrite (connect_calm env w).
  open_world w. open_env env. open_env env'. simpl in *. subst.
  cbv [calm]. methods. cases; repeat split.
Qed.

Lemma connect_restores_writing_witness :
  let w := run [Connect quiet; ReadError 0 "The device has been lost." lost] start in
  let w1 := snd (connect second_device w) in
  fst (connect second_device w) = Ok true /\
  isConnected (sess w1) = true /\
  port (sess w1) = Some 7 /\
  writeLine quiet "^^i" w1 =
    (Ok tt,
     log [{| during := sess w1; what := WriterWrite (S (fresh w)) ("^^i" ++ CRLF) |}] w1).
Proof.
  apply (connect_restores_writing second_device quiet "^^i"
           (run [Connect quiet; ReadError 0 "The device has been lost." lost] start) 7);
    reflexivity.
Defined.

(** ** Text *)

Lemma string_app_nil_r (s : string) : (s ++ "")%string = s.
Proof. induction s as [|x s IH]; simpl; [reflexivity|]. rewrite IH. reflexivity. Qed.

Lemma string_app_assoc (a b c : string) :
  ((a ++ b) ++ c)%string = (a ++ b ++ c)%string.
Proof. induction a as [|x a IH]; simpl; [reflexivity|]. rewrite IH. reflexivity. Qed.

Lemma replace_all_app (c : ascii) (r a b : string) :
  replace_all c r (a ++ b) = (replace_all c r a ++ replace_all c r b)%string.
Proof.
  induction a as [|x a IH]; simpl; [reflexivity|].
  rewrite IH. destruct (Ascii.eqb x c); simpl; [|reflexivity].
  rewrite string_app_assoc. reflexivity.
Qed.

Lemma replace_all_removes (c : ascii) (s : string) :
  count_matches c (replace_all c EmptyString s) = 0.
Proof.
  induction s as [|x s IH]; simpl; [reflexivity|].
  destruct (Ascii.eqb x c) eqn:E; simpl; [exact IH|]. rewrite E, IH. reflexivity.
Qed.

Lemma replace_all_absent (c : ascii) (r s : string) :
  count_matches c s = 0 -> replace_all c r s = s.
Proof.
  induction s as [|x s IH]; simpl; [reflexivity|].
  destruct (Ascii.eqb x c); simpl; [discriminate|].
  intros H. rewrite (IH H). reflexivity.
Qed.

Lemma shown_app (t u : list Obs) : shown (t ++ u) = (shown t ++ shown u)%string.
Proof.
  induction t as [|o t IH]; simpl; [reflexivity|].
  destruct (what o); simpl; rewrite IH; try reflexivity;
    rewrite string_app_assoc; reflexivity.
Qed.

(** X6.  However the device's output is cut into chunks, the output
    element shows the same text: the chunks joined, with every carriage
    return removed and nothing else changed. *)
Theorem output_ignores_chunking :
  forall (chunks : list string) (w : World),
    let w' := fold_left (fun w data => snd (handleCrowOutput data w)) chunks w in
    let received := String.concat "" chunks in
    shown (trace w') =
      (shown (trace w) ++ replace_all "013"%char "" received)%string /\
    count_matches "013"%char (replace_all "013"%char "" received) = 0 /\
    (count_matches "013"%char received = 0 ->
     shown (trace w') = (shown (trace w) ++ received)%string).
Proof.
  intros chunks w. cbv zeta.
  assert (E : shown (trace (fold_left (fun w data => snd (handleCrowOutput data w)) chunks w)) =
              (shown (trace w) ++
               replace_all "013"%char "" (fold_right String.append "" chunks))%string).
  { revert w. induction chunks as [|d chunks IH]; intros w; simpl.
    - rewrite string_app_nil_r. reflexivity.
    - rewrite IH. destruct w as [dr tr ls fr].
      cbv [handleCrowOutput outputText emit log snd trace].
      rewrite shown_app, replace_all_app. simpl.
      rewrite string_app_nil_r, string_app_assoc. reflexivity. }
  assert (C : String.concat "" chunks = fold_right String.append "" chunks).
  { clear. induction chunks as [|d [|d' chunks] IH]; simpl in *;
      [reflexivity | rewrite string_app_nil_r; reflexivity | rewrite IH; reflexivity]. }
  rewrite C, E. split; [reflexivity|]. split; [apply replace_all_removes|].
  intros H. rewrite (replace_all_absent _ _ _ H). reflexivity.
Qed.

Lemma output_ignores_chunking_witness :
  let chunks := [("> ok" ++ String "013"%char "")%string; (LF ++ "> ")%string] in
  let w' := fold_left (fun w data => snd (handleCrowOutput data w)) chunks start in
  count_matches "013"%char ("> ok" ++ LF ++ "> ") = 0 /\
  shown (trace w') = (shown (trace start) ++ "> ok" ++ LF ++ "> ")%string.
Proof.
  split; [reflexivity|].
  apply (proj1 (output_ignores_chunking
                  [("> ok" ++ String "013"%char "")%string; (LF ++ "> ")%string] start)).
Defined.

Lemma join_cons (sep a : string) (l : list string) :
  l <> [] -> join sep (a :: l) = (a ++ sep ++ join sep l)%string.
Proof. destruct l; [congruence | reflexivity]. Qed.

Lemma split_from_nonempty (sep : string) (s : string) :
  forall skip acc, split_from sep skip acc s <> [].
Proof.
  induction s as [|x s IH]; intros skip acc; cbn [split_from]; [discriminate|].
  destruct skip; [|apply IH].
  destruct (prefix sep (String x s)); [discriminate | apply IH].
Qed.

Lemma prefix_one (c x : ascii) (s : string) :
  prefix (String c "") (String x s) = Ascii.eqb x c.
Proof.
  simpl. destruct (ascii_dec c x) as [->|N].
  - rewrite Ascii.eqb_refl. destruct s; reflexivity.
  - symmetry. apply Ascii.eqb_neq. congruence.
Qed.

Lemma join_split_from (c : ascii) (r s : string) :
  forall acc,
    join r (split_from (String c "") 0 acc s) = (acc ++ replace_all c r s)%string.
Proof.
  induction s as [|x s IH]; intros acc.
  - simpl. rewrite string_app_nil_r. reflexivity.
  - cbn [split_from]. rewrite prefix_one. cbn [replace_all].
    destruct (Ascii.eqb x c).
    + change (String.length (String c "") - 1) with 0.
      rewrite join_cons by apply split_from_nonempty.
      rewrite IH. reflexivity.
    + rewrite IH, string_app_assoc. reflexivity.
Qed.

(** [s.split(c).join(r)] is [s.replace(/c/g, r)]. *)
Lemma join_split (c : ascii) (r s : string) :
  join r (split (String c "") s) = replace_all c r s.
Proof. unfold split. rewrite join_split_from. reflexivity. Qed.

Lemma replace_all_same (c : ascii) (s : string) : replace_all c (String c "") s = s.
Proof.
  induction s as [|x s IH]; simpl; [reflexivity|].
  destruct (Ascii.eqb x c) eqn:E; simpl; rewrite IH; [|reflexivity].
  apply Ascii.eqb_eq in E. subst. reflexivity.
Qed.

Lemma split_LF_nonempty (s : string) : split LF s <> [].
Proof. unfold split, LF. apply split_from_nonempty. Qed.

Lemma lastIndexOf_from_absent (c : ascii) (s : string) :
  forall i last, count_matches c s = 0 -> lastIndexOf_from c i last s = last.
Proof.
  induction s as [|x s IH]; intros i last H; simpl in *; [reflexivity|].
  destruct (Ascii.eqb x c); [discriminate|]. apply IH, H.
Qed.

Lemma lastIndexOf_from_app (c : ascii) (a b : string) :
  forall i last,
    lastIndexOf_from c i last (a ++ b) =
    lastIndexOf_from c (i + String.length a) (lastIndexOf_from c i last a) b.
Proof.
  induction a as [|x a IH]; intros i last; simpl.
  - rewrite Nat.add_0_r. reflexivity.
  - rewrite IH. f_equal. lia.
Qed.

Lemma substring_all (s : string) : substring 0 (String.length s) s = s.
Proof. induction s as [|x s IH]; simpl; [reflexivity|]. rewrite IH. reflexivity. Qed.

Lemma substring_from_app (t u : string) :
  substring_from (String.length t) (t ++ u) = u.
Proof.
  unfold substring_from. induction t as [|x t IH]; simpl.
  - rewrite Nat.sub_0_r. apply substring_all.
  - exact IH.
Qed.

Lemma last_paren (t u : string) :
  count_matches "("%char u = 0 ->
  lastIndexOf "("%char (t ++ String "("%char u) = Z.of_nat (String.length t).
Proof.
  intros H. unfold lastIndexOf. rewrite lastIndexOf_from_app. simpl.
  apply lastIndexOf_from_absent, H.
Qed.

(** X7.  [getActiveParameter] is 0 for a text without an opening
    parenthesis; otherwise it is the number of commas after the last
    opening parenthesis.  So an opening parenthesis typed at the end sets
    it to 0 and a comma typed after one adds 1. *)
Theorem getActiveParameter_counts_commas :
  forall (t u : string),
    count_matches "("%char u = 0 ->
    getActiveParameter u = 0 /\
    getActiveParameter (t ++ "(" ++ u) = count_matches ","%char u /\
    getActiveParameter (t ++ "(") = 0 /\
    getActiveParameter (t ++ "(" ++ u ++ ",") = S (count_matches ","%char u).
Proof.
  intros t u H.
  assert (G : forall v, count_matches "("%char v = 0 ->
                        getActiveParameter (t ++ String "("%char v) =
                        count_matches ","%char v).
  { intros v Hv. unfold getActiveParameter. rewrite (last_paren t v Hv).
    destruct (Z.of_nat (String.length t) =? -1)%Z eqn:E;
      [apply Z.eqb_eq in E; lia|].
    replace (Z.to_nat (Z.of_nat (String.length t) + 1))
      with (String.length (t ++ "(")).
    - replace (t ++ String "("%char v)%string with ((t ++ "(") ++ v)%string
        by (rewrite string_app_assoc; reflexivity).
      rewrite substring_from_app. reflexivity.
    - clear. induction t as [|x t IH]; simpl; [reflexivity|]. rewrite IH. lia. }
  split; [|split; [|split]].
  - unfold getActiveParameter, lastIndexOf.
    rewrite lastIndexOf_from_absent by exact H. reflexivity.
  - apply G, H.
  - apply (G ""%string). reflexivity.
  - assert (C : forall c v z, count_matches c (v ++ z) =
                              count_matches c v + count_matches c z).
    { clear. intros c v z. induction v as [|x v IH]; simpl; [reflexivity|].
      rewrite IH. lia. }
    change (t ++ "(" ++ u ++ ",")%string with (t ++ String "("%char (u ++ ","))%string.
    rewrite G; rewrite C; simpl; lia.
Qed.

Lemma getActiveParameter_counts_commas_witness :
  getActiveParameter "1, 2" = 0 /\
  getActiveParameter ("output[1].action = lfo" ++ "(" ++ "1, 2") = 1 /\
  getActiveParameter ("output[1].action = lfo" ++ "(") = 0 /\
  getActiveParameter ("output[1].action = lfo" ++ "(" ++ "1, 2" ++ ",") = 2.
Proof.
  apply (getActiveParameter_counts_commas "output[1].action = lfo" "1, 2").
  reflexivity.
Defined.

(** ** Uploads *)

Lemma druid_log (o : list Obs) (w : World) : druid (log o w) = druid w.
Proof. destruct w. reflexivity. Qed.

Lemma shown_log (o : list Obs) (w : World) :
  shown (trace (log o w)) = (shown (trace w) ++ shown o)%string.
Proof. destruct w as [d tr ls fr]. cbv [log trace]. apply shown_app. Qed.

Lemma shown_lines (c : CrowConnection) (wr : Writer) (lines : list string) :
  shown (flat_map (line_sent c wr) lines) = ""%string.
Proof. induction lines as [|l lines IH]; simpl; [reflexivity | exact IH]. Qed.

Lemma shown_script (c : CrowConnection) (wr : Writer) (lines : list string) (last : string) :
  shown (script_sent c wr lines last) = ""%string.
Proof.
  unfold script_sent. simpl. rewrite shown_app, shown_lines. reflexivity.
Qed.

Lemma writeLine_fails (env : Env) (line : string) (w : World) (wr : Writer)
      (message : string) :
  isConnected (sess w) = true -> writer (sess w) = Some wr ->
  write_ env = Rejected message ->
  writeLine env line w =
    (Throw message,
     log [{| during := sess w; what := WriterWrite wr (line ++ CRLF) |};
          {| during := sess w; what := ConsoleError "Write error:" message |}] w).
Proof.
  intros Hc Hw He. open_world w. open_env env. methods. subst.
  rewrite <- app_assoc. reflexivity.
Qed.

Lemma send_lines_fails (envs : nat -> Env) (lines : list string) :
  forall (k n : nat) (w : World) (wr : Writer) (message : string),
    isConnected (sess w) = true -> writer (sess w) = Some wr ->
    k <= n -> n < k + List.length lines ->
    (forall i, k <= i -> i < n -> write_ (envs i) = Resolved tt) ->
    write_ (envs n) = Rejected message ->
    cut_short unit (send_lines envs k lines w) w message
              (map (fun l => (l ++ CRLF)%string) (firstn (S (n - k)) lines)).
Proof.
  induction lines as [|line rest IH]; intros k n w wr message Hc Hw Hk Hn Hok Hbad;
    simpl in Hn; [lia|].
  cbn [send_lines]. destruct (Nat.eq_dec k n) as [->|Hne].
  - unfold bind at 1. rewrite (writeLine_fails _ _ _ wr message Hc Hw Hbad).
    eexists. split; [reflexivity|].
    rewrite Nat.sub_diag. split; reflexivity.
  - unfold bind at 1. rewrite (writeLine_ok _ _ _ wr Hc Hw) by (apply Hok; lia).
    unfold bind at 1. unfold delay, emit. rewrite log_log, sess_log.
    destruct (IH (S k) n (log ([{| during := sess w; what := WriterWrite wr (line ++ CRLF) |}] ++
                               [{| during := sess w; what := Delay 1 |}]) w) wr message)
      as (ext & E & Ew & Es);
      rewrite ?sess_log; try assumption; try lia.
    + intros i Hi Hi'. apply Hok; lia.
    + rewrite E, log_log. eexists. split; [reflexivity|].
      rewrite written_app, shown_app, Ew, Es.
      replace (S (n - k)) with (S (S (n - S k))) by lia.
      split; reflexivity.
Qed.

Lemma firstn_pattern (j : nat) (lines : list string) (last : string) :
  firstn (S j) (upload_pattern lines last) =
  (("^^s" ++ CRLF)%string ::
   firstn j (map (fun l => (l ++ CRLF)%string) (lines ++ [last]))).
Proof. reflexivity. Qed.

Lemma send_script_fails (envs : nat -> Env) (sep code last : string) (w : World)
      (wr : Writer) (j : nat) (message : string) :
  isConnected (sess w) = true -> writer (sess w) = Some wr ->
  j <= S (List.length (split sep code)) ->
  (forall i, i < j -> write_ (envs i) = Resolved tt) ->
  write_ (envs j) = Rejected message ->
  cut_short unit (send_script envs sep code last w) w message
            (firstn (S j) (upload_pattern (split sep code) last)).
Proof.
  intros Hc Hw Hj Hok Hbad. unfold send_script. rewrite firstn_pattern.
  set (lines := split sep code) in *.
  destruct j as [|j].
  - unfold bind at 1. rewrite (writeLine_fails _ _ _ wr message Hc Hw Hbad).
    eexists. split; [reflexivity|]. split; reflexivity.
  - unfold bind at 1. rewrite (writeLine_ok _ _ _ wr Hc Hw) by (apply Hok; lia).
    unfold bind at 1. unfold delay at 1, emit. rewrite log_log, sess_log.
    set (w1 := log _ w).
    assert (Hc1 : isConnected (sess w1) = true) by (unfold w1; rewrite sess_log; exact Hc).
    assert (Hw1 : writer (sess w1) = Some wr) by (unfold w1; rewrite sess_log; exact Hw).
    destruct (Nat.eq_dec j (List.length lines)) as [->|Hlt].
    + (* the last line is the one rejected *)
      unfold bind at 1.
      assert (S1 : exists ext1, send_lines envs 1 lines w1 = (Ok tt, log ext1 w1) /\
                                written ext1 = map (fun l => (l ++ CRLF)%string) lines /\
                                shown ext1 = ""%string).
      { clear Hbad. clearbody w1. clear - Hc1 Hw1 Hok.
        assert (G : forall ls k w, isConnected (sess w) = true -> writer (sess w) = Some wr ->
                      k + List.length ls <= S (List.length lines) ->
                      exists ext1, send_lines envs k ls w = (Ok tt, log ext1 w) /\
                                   written ext1 = map (fun l => (l ++ CRLF)%string) ls /\
                                   shown ext1 = ""%string).
        { induction ls as [|l ls IH]; intros k w Hc Hw Hk; simpl in *.
          - exists []. destruct w as [d tr ls0 fr]. cbv [ret log trace druid loops fresh].
            rewrite app_nil_r. repeat split.
          - unfold bind at 1. rewrite (writeLine_ok _ _ _ wr Hc Hw) by (apply Hok; lia).
            unfold bind at 1. unfold delay, emit. rewrite log_log, sess_log.
            destruct (IH (S k) (log ([{| during := sess w; what := WriterWrite wr (l ++ CRLF) |}] ++
                                     [{| during := sess w; what := Delay 1 |}]) w))
              as (ext1 & E & Ew & Es); rewrite ?sess_log; try assumption; try lia.
            rewrite E, log_log. eexists. split; [reflexivity|].
            rewrite written_app, shown_app, Ew, Es. split; reflexivity. }
        apply G; try assumption. simpl. lia. }
      destruct S1 as (ext1 & E1 & Ew1 & Es1). rewrite E1.
      unfold bind at 1.
      rewrite (writeLine_fails _ _ _ wr message) by (rewrite ?sess_log; assumption).
      unfold w1. rewrite !log_log. eexists. split; [reflexivity|].
      rewrite !written_app, !shown_app, Ew1, Es1.
      rewrite firstn_all2 by (rewrite length_map, length_app; simpl; lia).
      rewrite map_app. split; reflexivity.
    + (* a line of the script is the one rejected *)
      unfold bind at 1.
      destruct (send_lines_fails envs lines 1 (S j) w1 wr message)
        as (ext & E & Ew & Es); try assumption; try lia.
      * intros i Hi Hi'. apply Hok. lia.
      * rewrite E. unfold w1. rewrite log_log. eexists. split; [reflexivity|].
        rewrite written_app, shown_app, Ew, Es.
        replace (S (S j - 1)) with (S j) by lia.
        rewrite map_app, firstn_app, length_map.
        replace (S j - List.length lines) with 0 by lia.
        rewrite firstn_O, app_nil_r, firstn_map. split; reflexivity.
Qed.

(** X8.  When the platform rejects the [j]-th write of [uploadScript()]
    (the begin line being the 0-th), the upload stops there: the later
    lines and the write-to-flash line are not written, the error is shown
    in the output, and the script keeps its modified mark.  The method
    itself returns normally. *)
Theorem uploadScript_stops_at_rejected_write :
  forall (envs : nat -> Env) (w : World) (wr : Writer) (code : string)
         (j : nat) (message : string),
    isConnected (sess w) = true ->
    writer (sess w) = Some wr ->
    editor (druid w) = Some code ->
    j <= S (List.length (split LF code)) ->
    (forall i, i < j -> write_ (envs i) = Resolved tt) ->
    write_ (envs j) = Rejected message ->
    let w' := snd (uploadScript envs w) in
    fst (uploadScript envs w) = Ok tt /\
    druid w' = druid w /\
    written (trace w') =
      written (trace w) ++ firstn (S j) (upload_pattern (split LF code) "^^w") /\
    shown (trace w') =
      (shown (trace w) ++
       ("Uploading " ++ scriptName (druid w) ++ "...") ++ LF ++
       ("Upload error: " ++ message ++ LF) ++ LF)%string.
Proof.
  intros envs w wr code j message Hc Hw Hed Hj Hok Hbad. cbv zeta.
  destruct (send_script_fails envs LF code "^^w"
              (log [said (sess w) ("Uploading " ++ scriptName (druid w) ++ "...")] w)
              wr j message) as (ext & E & Ew & Es);
    rewrite ?sess_log; try assumption.
  assert (R : uploadScript envs w =
              (Ok tt,
               log ([said (sess w) ("Uploading " ++ scriptName (druid w) ++ "...")] ++
                    ext ++ [said (sess w) ("Upload error: " ++ message ++ LF)]) w)).
  { unfold uploadScript, this, app, outputLine, emit.
    unfold bind at 1. unfold bind at 1. rewrite Hc, Hed. unfold bind at 1.
    unfold try_catch. unfold bind at 1. fold (said (sess w) ("Uploading " ++ scriptName (druid w) ++ "...")).
    rewrite E, !log_log, sess_log. reflexivity. }
  rewrite R. cbv [fst snd].
  rewrite druid_log, written_log, shown_log, !written_app, !shown_app, Ew, Es.
  simpl. rewrite !string_app_nil_r, app_nil_r. repeat split.
  repeat (rewrite string_app_assoc; simpl). reflexivity.
Qed.

Lemma uploadScript_stops_at_rejected_write_witness :
  let w := editing two_lines (run [Connect quiet] start) in
  let envs := failing_at 1 "The device has been lost." in
  let w' := snd (uploadScript envs w) in
  fst (uploadScript envs w) = Ok tt /\
  druid w' = druid w /\
  written (trace w') =
    written (trace w) ++ firstn 2 (upload_pattern (split LF two_lines) "^^w") /\
  shown (trace w') =
    (shown (trace w) ++
     ("Uploading " ++ scriptName (druid w) ++ "...") ++ LF ++
     ("Upload error: " ++ "The device has been lost." ++ LF) ++ LF)%string.
Proof.
  apply (uploadScript_stops_at_rejected_write
           (failing_at 1 "The device has been lost.")
           (editing two_lines (run [Connect quiet] start)) 1 two_lines 1
           "The device has been lost.");
    try evaluated.
  - vm_compute. lia.
  - intros i Hi. destruct i as [|i]; [reflexivity | lia].
Defined.

(** X9.  An upload that goes through sends the script whole: the lines
    written between the begin line and the write-to-flash line, joined by
    line feeds, are the text of the editor; and the script is then marked
    unmodified. *)
Theorem uploadScript_sends_the_script :
  forall (envs : nat -> Env) (w : World) (wr : Writer) (code : string),
    isConnected (sess w) = true ->
    writer (sess w) = Some wr ->
    editor (druid w) = Some code ->
    (forall i, write_ (envs i) = Resolved tt) ->
    let w' := snd (uploadScript envs w) in
    written (trace w') =
      written (trace w) ++ upload_pattern (split LF code) "^^w" /\
    join LF (split LF code) = code /\
    scriptModified (druid w') = false /\
    editor (druid w') = Some code.
Proof.
  intros envs w wr code Hc Hw Hed He. cbv zeta.
  split; [apply (uploadScript_pattern envs w wr code Hc Hw Hed He)|].
  split; [unfold LF; rewrite join_split; apply replace_all_same|].
  rewrite (uploadScript_run envs w wr code Hc Hw Hed He).
  unfold setModified. cbn [snd druid scriptModified editor]. rewrite druid_log.
  split; [reflexivity | exact Hed].
Qed.

Lemma uploadScript_sends_the_script_witness :
  let w := editing two_lines (run [Connect quiet] start) in
  let w' := snd (uploadScript (fun _ => quiet) w) in
  written (trace w') =
    written (trace w) ++ upload_pattern (split LF two_lines) "^^w" /\
  join LF (split LF two_lines) = two_lines /\
  scriptModified (druid w') = false /\
  editor (druid w') = Some two_lines.
Proof.
  apply (uploadScript_sends_the_script (fun _ => quiet)
           (editing two_lines (run [Connect quiet] start)) 1 two_lines);
    evaluated.
Defined.

(** X10.  On a session that is not connected none of the uploads writes
    anything or reads the file: [runScript] and [uploadScript] return
    without a trace, [uploadFileFromDrop] and [sendToCrow] show the
    not-connected error. *)
Theorem uploads_need_a_connection :
  forall (envs : nat -> Env) (file : File) (code : string) (w : World),
    isConnected (sess w) = false ->
    runScript envs w = (Ok tt, w) /\
    uploadScript envs w = (Ok tt, w) /\
    uploadFileFromDrop envs file w =
      (Ok tt, log [said (sess w) not_connected_error] w) /\
    sendToCrow envs code w =
      (Ok tt, log [said (sess w) not_connected_error] w).
Proof.
  intros envs file code w Hc.
  unfold runScript, uploadScript, uploadFileFromDrop, sendToCrow, this, app,
    outputLine, emit, bind, said, not_connected_error.
  rewrite Hc. repeat split.
Qed.

Lemma uploads_need_a_connection_witness :
  let file := {| name := "first.lua"; text := Resolved two_lines |} in
  runScript (fun _ => quiet) start = (Ok tt, start) /\
  uploadScript (fun _ => quiet) start = (Ok tt, start) /\
  uploadFileFromDrop (fun _ => quiet) file start =
    (Ok tt, log [said (sess start) not_connected_error] start) /\
  sendToCrow (fun _ => quiet) two_lines start =
    (Ok tt, log [said (sess start) not_connected_error] start).
Proof.
  apply (uploads_need_a_connection (fun _ => quiet)
           {| name := "first.lua"; text := Resolved two_lines |} two_lines start).
  reflexivity.
Defined.

Lemma join_prefixed (pre sep : string) (lines : list string) :
  lines <> [] ->
  (pre ++ join (sep ++ pre) lines)%string = join sep (map (fun l => (pre ++ l)%string) lines).
Proof.
  induction lines as [|l lines IH]; intros H; [congruence|].
  destruct lines as [|l' lines]; [reflexivity|].
  assert (N : l' :: lines <> []) by discriminate.
  rewrite (join_cons (sep ++ pre) l (l' :: lines) N).
  change (map (fun l0 => (pre ++ l0)%string) (l :: l' :: lines))
    with ((pre ++ l)%string :: map (fun l0 => (pre ++ l0)%string) (l' :: lines)).
  rewrite (join_cons sep (pre ++ l) (map (fun l0 => (pre ++ l0)%string) (l' :: lines)))
    by (simpl; discriminate).
  rewrite <- (IH N).
  rewrite !string_app_assoc. reflexivity.
Qed.

(** X11.  [sendToCrow(code)] on a connected session whose writes are
    accepted writes each line of the code with CRLF, and then shows the
    code in the output with ">> " before each of these lines. *)
Theorem sendToCrow_sends_and_echoes :
  forall (envs : nat -> Env) (code : string) (w : World) (wr : Writer),
    isConnected (sess w) = true ->
    writer (sess w) = Some wr ->
    (forall i, write_ (envs i) = Resolved tt) ->
    let w' := snd (sendToCrow envs code w) in
    fst (sendToCrow envs code w) = Ok tt /\
    written (trace w') =
      written (trace w) ++ map (fun l => (l ++ CRLF)%string) (split LF code) /\
    shown (trace w') =
      (shown (trace w) ++
       join LF (map (fun l => (">> " ++ l)%string) (split LF code)) ++ LF)%string.
Proof.
  intros envs code w wr Hc Hw He. cbv zeta.
  assert (R : sendToCrow envs code w =
              (Ok tt,
               log (flat_map (line_sent (sess w) wr) (split LF code) ++
                    [said (sess w) (">> " ++ replace_all "010"%char (LF ++ ">> ") code)]) w)).
  { unfold sendToCrow, this, outputLine, emit.
    unfold bind at 1. rewrite Hc. cbv [negb]. unfold try_catch. unfold bind at 1.
    rewrite (send_lines_ok envs _ 0 w wr Hc Hw He). rewrite log_log, sess_log.
    reflexivity. }
  rewrite R. cbv [fst snd].
  rewrite written_log, shown_log, written_app, shown_app, written_lines, shown_lines.
  rewrite <- join_prefixed by apply split_LF_nonempty.
  replace (join (LF ++ ">> ") (split LF code))
    with (replace_all "010"%char (LF ++ ">> ") code)
    by (symmetry; apply join_split).
  simpl. rewrite app_nil_r, string_app_nil_r. repeat split.
Qed.

Lemma sendToCrow_sends_and_echoes_witness :
  let w := run [Connect quiet] start in
  let w' := snd (sendToCrow (fun _ => quiet) two_lines w) in
  fst (sendToCrow (fun _ => quiet) two_lines w) = Ok tt /\
  written (trace w') =
    written (trace w) ++ map (fun l => (l ++ CRLF)%string) (split LF two_lines) /\
  shown (trace w') =
    (shown (trace w) ++
     join LF (map (fun l => (">> " ++ l)%string) (split LF two_lines)) ++ LF)%string.
Proof.
  apply (sendToCrow_sends_and_echoes (fun _ => quiet) two_lines
           (run [Connect quiet] start) 1); evaluated.
Defined.

(** ** The console *)

Ltac open_page p :=
  let re := fresh "re" in let ae := fresh "ae" in let h := fresh "h" in
  let i := fresh "i" in let ci := fresh "ci" in let nav := fresh "nav" in
  let ev := fresh "ev" in let cf := fresh "cf" in let ri := fresh "ri" in
  let bm := fresh "bm" in
  destruct p as [re ae h i ci nav ev cf ri bm].

Ltac desk :=
  cbv beta iota delta
    [bindD retD throwD try_catchD the_page update lift awaitD
     replEditor_getValue replEditor_setValue replEditor_changed
     replEditor_typed replInput_assign remember shown_entry
     set_replEditor set_commandHistory set_historyIndex set_currentInput
     set_isNavigatingHistory set_currentFile set_replInput_value
     set_boweryModal_display
     world page replEditor replAutocompleteEnabled commandHistory historyIndex
     currentInput isNavigatingHistory editorVisible currentFile
     replInput_value boweryModal_display fst snd negb andb orb] in *.

Ltac zcases :=
  repeat match goal with
         | |- context [(?a =? ?b)%Z] => destruct (Z.eqb_spec a b)
         | |- context [(?a <? ?b)%Z] => destruct (Z.ltb_spec a b)
         end.

Lemma history_at_nth (h : list string) (i : Z) :
  (0 <= i)%Z -> history_at h i = nth_error h (Z.to_nat i).
Proof.
  intros H. unfold history_at. destruct (Z.ltb_spec i 0); [lia | reflexivity].
Qed.

Lemma nth_error_in_range {A} (l : list A) (n : nat) :
  n < List.length l -> nth_error l n <> None.
Proof. intros H. apply nth_error_Some. exact H. Qed.

Lemma shown_at (h : list string) (k : nat) :
  k < List.length h ->
  history_at h (Z.of_nat (List.length h) - 1 - Z.of_nat k) =
  nth_error h (List.length h - S k).
Proof.
  intros H. rewrite history_at_nth by lia.
  f_equal. lia.
Qed.

Ltac fields :=
  cbn [world page replEditor replAutocompleteEnabled commandHistory historyIndex
       currentInput isNavigatingHistory editorVisible currentFile
       replInput_value boweryModal_display fst snd] in *.

Ltac desk_steps :=
  repeat (desk; unfold history_length in *; zcases; try lia).

Lemma navigate_up_moves (w : World) (p : Page) (h : list string) (v : string) (k : nat) :
  browsing h v k p -> k < List.length h ->
  exists p', navigateReplHistory "up" {| world := w; page := p |} =
             (Ok tt, {| world := w; page := p' |}) /\ browsing h v (S k) p'.
Proof.
  intros (Hh & Hi & Hn & Hk) Hlt. open_page p. simpl in Hh, Hi, Hn, Hk. subst.
  pose proof (shown_at h k Hlt) as E.
  destruct (nth_error h (List.length h - S k)) as [e|] eqn:Ee;
    [|apply nth_error_None in Ee; lia].
  unfold navigateReplHistory. rewrite String.eqb_refl.
  destruct k as [|k].
  - subst re. desk_steps.
    replace (Z.of_nat (List.length h) - 1 - (Z.of_nat 0 - 1 + 1))%Z
      with (Z.of_nat (List.length h) - 1 - Z.of_nat 0)%Z by lia.
    rewrite E. destruct ae; desk_steps;
      (eexists; split; [reflexivity|]);
      unfold browsing; fields; rewrite Ee; repeat split; try lia; discriminate.
  - destruct Hk as (Hre & Hne & Hci). subst ci. desk_steps.
    replace (Z.of_nat (List.length h) - 1 - (Z.of_nat (S k) - 1 + 1))%Z
      with (Z.of_nat (List.length h) - 1 - Z.of_nat (S k))%Z by lia.
    rewrite E.
    destruct (nth_error h (List.length h - S k)) as [e0|] eqn:E0; [|congruence].
    subst re. desk_steps. destruct ae; desk_steps;
      (eexists; split; [reflexivity|]);
      unfold browsing; fields; rewrite Ee; repeat split; try lia; discriminate.
Qed.

Lemma navigate_up_stays (w : World) (p : Page) (h : list string) (v : string) :
  browsing h v (List.length h) p ->
  navigateReplHistory "up" {| world := w; page := p |} =
  (Ok tt, {| world := w; page := p |}).
Proof.
  intros (Hh & Hi & Hn & Hk). open_page p. fields. subst.
  unfold navigateReplHistory. rewrite String.eqb_refl.
  destruct (List.length h) as [|k] eqn:El; desk_steps; reflexivity.
Qed.

Lemma navigate_down_moves (w : World) (p : Page) (h : list string) (v : string) (k : nat) :
  browsing h v (S k) p -> S k <= List.length h ->
  exists p', navigateReplHistory "down" {| world := w; page := p |} =
             (Ok tt, {| world := w; page := p' |}) /\ browsing h v k p'.
Proof.
  intros (Hh & Hi & Hn & Hre & Hne & Hci) Hle. open_page p. fields. subst.
  unfold navigateReplHistory.
  replace ("down" =? "up")%string with false by reflexivity.
  rewrite String.eqb_refl.
  destruct (nth_error h (List.length h - S k)) as [e0|] eqn:E0; [|congruence].
  destruct k as [|k].
  - desk_steps. destruct ae; desk_steps;
      (eexists; split; [reflexivity|]);
      unfold browsing; fields; repeat split; lia.
  - pose proof (shown_at h k ltac:(lia)) as E.
    destruct (nth_error h (List.length h - S k)) as [e|] eqn:Ee;
      [|apply nth_error_None in Ee; lia].
    desk_steps.
    replace (Z.of_nat (List.length h) - 1 - (Z.of_nat (S (S k)) - 1 - 1))%Z
      with (Z.of_nat (List.length h) - 1 - Z.of_nat k)%Z by lia.
    rewrite E. desk_steps. destruct ae; desk_steps;
      (eexists; split; [reflexivity|]);
      unfold browsing; fields; rewrite Ee; repeat split; try lia; discriminate.
Qed.

Lemma navigate_down_stays (w : World) (p : Page) (h : list string) (v : string) :
  browsing h v 0 p ->
  navigateReplHistory "down" {| world := w; page := p |} =
  (Ok tt, {| world := w; page := p |}).
Proof.
  intros (Hh & Hi & Hn & Hk). open_page p. fields. subst.
  unfold navigateReplHistory.
  replace ("down" =? "up")%string with false by reflexivity.
  rewrite String.eqb_refl. desk_steps. reflexivity.
Qed.

Lemma desk_run_app (a b : list DeskAction) (d : Desk) :
  desk_run (a ++ b) d = desk_run b (desk_run a d).
Proof. apply fold_left_app. Qed.

Lemma ups (h : list string) (v : string) (n : nat) :
  forall (w : World) (p : Page) (k : nat),
    browsing h v k p -> k <= List.length h ->
    exists p', desk_run (times n (Navigate "up")) {| world := w; page := p |} =
               {| world := w; page := p' |} /\
               browsing h v (Nat.min (k + n) (List.length h)) p'.
Proof.
  induction n as [|n IH]; intros w p k Hb Hk.
  - exists p. split; [reflexivity|].
    rewrite Nat.add_0_r, Nat.min_l by exact Hk. exact Hb.
  - cbn [times desk_run fold_left desk_step].
    destruct (Nat.eq_dec k (List.length h)) as [->|Hne].
    + rewrite (navigate_up_stays w p h v Hb). cbn [snd].
      destruct (IH w p (List.length h) Hb (Nat.le_refl _)) as (p' & E & Hb').
      exists p'. split; [exact E|].
      rewrite Nat.min_r in * by lia. exact Hb'.
    + destruct (navigate_up_moves w p h v k Hb ltac:(lia)) as (p1 & E1 & Hb1).
      rewrite E1. cbn [snd].
      destruct (IH w p1 (S k) Hb1 ltac:(lia)) as (p' & E & Hb').
      exists p'. split; [exact E|].
      replace (k + S n) with (S k + n) by lia. exact Hb'.
Qed.

Lemma downs (h : list string) (v : string) (n : nat) :
  forall (w : World) (p : Page) (k : nat),
    browsing h v k p -> k <= List.length h ->
    exists p', desk_run (times n (Navigate "down")) {| world := w; page := p |} =
               {| world := w; page := p' |} /\
               browsing h v (k - n) p'.
Proof.
  induction n as [|n IH]; intros w p k Hb Hk.
  - exists p. split; [reflexivity|]. rewrite Nat.sub_0_r. exact Hb.
  - cbn [times desk_run fold_left desk_step].
    destruct k as [|k].
    + rewrite (navigate_down_stays w p h v Hb). cbn [snd].
      destruct (IH w p 0 Hb Hk) as (p' & E & Hb'). exists p'. split; [exact E|].
      exact Hb'.
    + destruct (navigate_down_moves w p h v k Hb Hk) as (p1 & E1 & Hb1).
      rewrite E1. cbn [snd].
      destruct (IH w p1 k Hb1 ltac:(lia)) as (p' & E & Hb'). exists p'.
      split; [exact E|]. exact Hb'.
Qed.

(** X12.  From a REPL editor that shows the text [v] outside the history,
    any number of steps up followed by as many steps down brings back [v],
    with the index at [-1]; the history and the session are untouched. *)
Theorem history_round_trip :
  forall (n : nat) (d : Desk) (v : string),
    replEditor (page d) = Some v ->
    historyIndex (page d) = (-1)%Z ->
    isNavigatingHistory (page d) = false ->
    let d' := desk_run (times n (Navigate "up") ++ times n (Navigate "down")) d in
    replEditor (page d') = Some v /\
    historyIndex (page d') = (-1)%Z /\
    commandHistory (page d') = commandHistory (page d) /\
    world d' = world d.
Proof.
  intros n [w p] v Hre Hi Hn. fields. cbv zeta. rewrite desk_run_app.
  assert (Hb : browsing (commandHistory p) v 0 p) by (repeat split; assumption).
  destruct (ups (commandHistory p) v n w p 0 Hb ltac:(lia)) as (p1 & E1 & Hb1).
  rewrite E1.
  destruct (downs (commandHistory p) v n w p1 _ Hb1 ltac:(lia)) as (p2 & E2 & Hb2).
  rewrite E2. fields.
  replace (Nat.min (0 + n) (List.length (commandHistory p)) - n) with 0 in Hb2 by lia.
  destruct Hb2 as (Hh2 & Hi2 & _ & Hre2). repeat split; assumption.
Qed.

Lemma history_round_trip_witness :
  let d := desk_run [Send (fun _ => quiet) "a"; Send (fun _ => quiet) "b"; Typed "c"] ready in
  let d' := desk_run (times 3 (Navigate "up") ++ times 3 (Navigate "down")) d in
  replEditor (page d') = Some "c" /\
  historyIndex (page d') = (-1)%Z /\
  commandHistory (page d') = commandHistory (page d) /\
  world d' = world d.
Proof.
  apply (history_round_trip 3
           (desk_run [Send (fun _ => quiet) "a"; Send (fun _ => quiet) "b"; Typed "c"] ready)
           "c"); evaluated.
Defined.

(** X13.  From outside the history, [n] steps up show the [n]-th latest
    command, and the oldest one when the history has fewer; the text that
    was in the editor is kept in [currentInput]. *)
Theorem history_steps_up :
  forall (n : nat) (d : Desk) (v : string),
    replEditor (page d) = Some v ->
    historyIndex (page d) = (-1)%Z ->
    isNavigatingHistory (page d) = false ->
    0 < n -> commandHistory (page d) <> [] ->
    let h := commandHistory (page d) in
    let k := Nat.min n (List.length h) in
    let d' := desk_run (times n (Navigate "up")) d in
    replEditor (page d') = nth_error h (List.length h - k) /\
    replEditor (page d') <> None /\
    historyIndex (page d') = (Z.of_nat k - 1)%Z /\
    currentInput (page d') = v.
Proof.
  intros n [w p] v Hre Hi Hn Hpos Hne. fields. cbv zeta.
  assert (Hb : browsing (commandHistory p) v 0 p) by (repeat split; assumption).
  destruct (ups (commandHistory p) v n w p 0 Hb ltac:(lia)) as (p1 & E1 & Hb1).
  rewrite E1. fields. simpl Nat.add in Hb1.
  destruct (Nat.min n (List.length (commandHistory p))) as [|k] eqn:Ek.
  - destruct (commandHistory p); [congruence | simpl in Ek; lia].
  - destruct Hb1 as (_ & Hi1 & _ & Hre1 & Hne1 & Hci1).
    rewrite Hre1. repeat split; assumption.
Qed.

Lemma history_steps_up_witness :
  let d := desk_run [Send (fun _ => quiet) "a"; Send (fun _ => quiet) "b"; Typed "c"] ready in
  let d' := desk_run (times 2 (Navigate "up")) d in
  replEditor (page d') = nth_error ["a"; "b"] 0 /\
  replEditor (page d') <> None /\
  historyIndex (page d') = 1%Z /\
  currentInput (page d') = "c".
Proof.
  apply (history_steps_up 2
           (desk_run [Send (fun _ => quiet) "a"; Send (fun _ => quiet) "b"; Typed "c"] ready)
           "c"); try evaluated.
  lia.
Defined.

Lemma history_at_some (h : list string) (j : Z) :
  (0 <= j < Z.of_nat (List.length h))%Z -> history_at h j <> None.
Proof.
  intros H. rewrite history_at_nth by lia. apply nth_error_in_range. lia.
Qed.

(** The steps of a method at the desk, with the entries of the history
    that are read shown to be there. *)
Ltac shown_present :=
  match goal with
  | |- context [history_at ?h ?j] =>
      let E := fresh "E" in
      destruct (history_at h j) eqn:E;
      [|exfalso; revert E; apply history_at_some; lia]
  end.

Ltac session_steps :=
  cbv beta iota delta [outputLine emit log this sess] in *;
  cbn [druid trace loops fresh] in *;
  repeat match goal with
         | |- context [send_lines ?a ?b ?c ?d] =>
             destruct (send_lines a b c d) as [[[]|?] ?]
         end.

Ltac page_ok_now :=
  unfold page_ok in *; fields; unfold history_length in *;
  rewrite ?length_app; cbn [List.length];
  repeat split; try lia; try discriminate; try reflexivity; try tauto.

Lemma navigate_ok (direction : string) (d : Desk) :
  page_ok (page d) ->
  fst (navigateReplHistory direction d) = Ok tt /\
  page_ok (page (snd (navigateReplHistory direction d))) /\
  world (snd (navigateReplHistory direction d)) = world d /\
  commandHistory (page (snd (navigateReplHistory direction d))) =
    commandHistory (page d).
Proof.
  intros (Hi & Hre & Hn). destruct d as [w p]. open_page p. fields. subst.
  destruct re as [v|]; [clear Hre|congruence].
  unfold navigateReplHistory.
  destruct (direction =? "up")%string; [|destruct (direction =? "down")%string].
  - desk_steps; try shown_present; destruct ae; desk_steps; page_ok_now.
  - desk_steps; try shown_present; destruct ae; desk_steps; page_ok_now.
  - desk. page_ok_now.
Qed.

Ltac console :=
  repeat (progress
            (desk; session_steps; unfold history_length in *; zcases; try lia;
             repeat match goal with
                    | |- context [isConnected ?c] =>
                        is_var c; fail 1
                    | |- context [if isConnected ?c then _ else _] =>
                        destruct (isConnected c)
                    | |- context [if negb (isConnected ?c) then _ else _] =>
                        destruct (isConnected c)
                    | |- context [String.eqb ?a ?b] => destruct (String.eqb a b)
                    | |- context [match history_at ?h ?j with _ => _ end] =>
                        destruct (history_at h j)
                    | |- context [if ?b then _ else _] => is_var b; destruct b
                    end)).

Lemma send_ok (envs : nat -> Env) (code : string) (d : Desk) :
  page_ok (page d) ->
  fst (sendReplCommand envs code d) = Ok tt /\
  page_ok (page (snd (sendReplCommand envs code d))).
Proof.
  intros (Hi & Hre & Hn). destruct d as [w p]. open_page p. fields. subst.
  destruct re as [v|]; [clear Hre|congruence].
  unfold sendReplCommand. console; page_ok_now.
Qed.

Lemma typed_ok (t : string) (d : Desk) :
  page_ok (page d) -> page_ok (page (snd (replEditor_typed t d))).
Proof.
  intros (Hi & Hre & Hn). destruct d as [w p]. open_page p. fields. subst.
  destruct re as [v|]; [clear Hre|congruence].
  console; page_ok_now.
Qed.

Lemma keydown_ok (envs : nat -> Env) (e : KeyEvent) (d : Desk) :
  page_ok (page d) -> page_ok (page (snd (handleReplInput envs e d))).
Proof.
  intros (Hi & Hre & Hn). destruct d as [w p]. open_page p. fields. subst.
  destruct e as [k sh on]. unfold handleReplInput. cbn [key shiftKey onReplInput].
  destruct on; cbn [negb]; [|desk; page_ok_now].
  destruct (k =? "ArrowUp")%string;
    [|destruct (k =? "ArrowDown")%string;
      [|destruct ((k =? "Enter")%string && negb sh)]].
  - console; page_ok_now.
  - console; page_ok_now.
  - console; page_ok_now.
  - console; page_ok_now.
Qed.

Lemma desk_step_ok (a : DeskAction) (d : Desk) :
  page_ok (page d) -> page_ok (page (desk_step d a)).
Proof.
  intros H. destruct a as [a|env|direction|envs code|t|envs e|t]; cbn [desk_step].
  - exact H.
  - exact H.
  - apply navigate_ok, H.
  - apply send_ok, H.
  - apply typed_ok, H.
  - apply keydown_ok, H.
  - destruct d as [w p]. open_page p. desk. page_ok_now.
Qed.

Lemma desk_run_ok (acts : list DeskAction) (d : Desk) :
  page_ok (page d) -> page_ok (page (desk_run acts d)).
Proof.
  revert d. induction acts as [|a acts IH]; intros d H; simpl.
  - exact H.
  - apply IH, desk_step_ok, H.
Qed.

(** X14.  Whatever is done at the desk once the editors are there (the
    actions of [DeskAction]: what the session does, the connection toggled,
    steps through the history, commands sent, text typed, keys on the
    textarea), the history index stays [-1] or an index of the history, and
    so a step through the history never fails and never reads past the
    history: it leaves the history and the session as they are. *)
Theorem history_index_in_range :
  forall (acts : list DeskAction) (direction : string),
    let d := desk_run acts ready in
    (-1 <= historyIndex (page d) < history_length (commandHistory (page d)))%Z /\
    fst (navigateReplHistory direction d) = Ok tt /\
    world (snd (navigateReplHistory direction d)) = world d /\
    commandHistory (page (snd (navigateReplHistory direction d))) =
      commandHistory (page d).
Proof.
  intros acts direction d.
  assert (H : page_ok (page d)).
  { apply desk_run_ok. unfold page_ok. split; [|split].
    - cbn. lia.
    - discriminate.
    - reflexivity. }
  destruct (navigate_ok direction d H) as (R & _ & W & C).
  split; [apply H|]. repeat split; assumption.
Qed.

(** *** The output of the device on the page *)

Lemma chunk_shown (r : Reader) (value : string) (env : Env) (w : World) :
  isConnected (sess w) = true -> reader (sess w) = Some r ->
  onDataReceived (sess w) = true -> waiting r w = true ->
  shown (trace (step w (ReadValue r value env))) =
    (shown (trace w) ++ replace_all "013"%char "" value)%string.
Proof.
  intros Hc Hr Ho Hw. cbv [step]. rewrite Hw. clear Hw.
  open_world w. open_env env. cbv [resumed waiting]. methods. subst.
  destruct (value =? "")%string eqn:E; cbv [negb andb];
    rewrite ?shown_app; simpl; rewrite ?string_app_nil_r; try reflexivity.
  apply String.eqb_eq in E. subst. simpl. rewrite string_app_nil_r. reflexivity.
Qed.

(** X15.  While the session is connected and its loop waits on its reader,
    what the device sends reaches the output element whole and in order,
    however it is cut into chunks, with every carriage return removed and
    nothing else changed. *)
Theorem device_output_shown :
  forall (chunks : list (string * Env)) (r : Reader) (w : World),
    isConnected (sess w) = true ->
    reader (sess w) = Some r ->
    onDataReceived (sess w) = true ->
    waiting r w = true ->
    let w' := run (map (fun c => ReadValue r (fst c) (snd c)) chunks) w in
    let received := fold_right String.append "" (map fst chunks) in
    shown (trace w') = (shown (trace w) ++ replace_all "013"%char "" received)%string /\
    count_matches "013"%char (replace_all "013"%char "" received) = 0.
Proof.
  intros chunks r w Hc Hr Ho Hw. cbv zeta. split; [|apply replace_all_removes].
  revert w Hc Hr Ho Hw.
  induction chunks as [|[v env] chunks IH]; intros w Hc Hr Ho Hw.
  - simpl. rewrite string_app_nil_r. reflexivity.
  - destruct (chunk_delivered r v env w Hc Hr Ho Hw) as (Es & Ew & _).
    change (run (map (fun c => ReadValue r (fst c) (snd c)) ((v, env) :: chunks)) w)
      with (run (map (fun c => ReadValue r (fst c) (snd c)) chunks)
                (step w (ReadValue r v env))).
    rewrite IH; try (rewrite Es; assumption); try assumption.
    rewrite (chunk_shown r v env w Hc Hr Ho Hw).
    cbn [map fold_right fst]. rewrite replace_all_app, string_app_assoc. reflexivity.
Qed.

Lemma device_output_shown_witness :
  let w := run [Connect quiet] start in
  let w' := run (map (fun c => ReadValue 0 (fst c) (snd c))
                     [(("> ok" ++ String "013"%char "")%string, quiet);
                      ((LF ++ "> ")%string, quiet)]) w in
  shown (trace w') = (shown (trace w) ++ "> ok" ++ LF ++ "> ")%string.
Proof.
  apply (proj1 (device_output_shown
                  [(("> ok" ++ String "013"%char "")%string, quiet);
                   ((LF ++ "> ")%string, quiet)] 0
                  (run [Connect quiet] start)
                  ltac:(evaluated) ltac:(evaluated) ltac:(evaluated) ltac:(evaluated))).
Defined.

(** *** The history of the console *)

Lemma remember_history (code : string) (d : Desk) :
  snd (remember code d) =
    {| world := world d;
       page := set_commandHistory (remembered (commandHistory (page d)) code) (page d) |}.
Proof.
  destruct d as [w p]. open_page p. unfold remembered.
  desk. unfold history_length.
  destruct (Z.eqb_spec (Z.of_nat (List.length h)) 0) as [E|E].
  - destruct h; [reflexivity | simpl in E; lia].
  - rewrite history_at_nth by lia.
    replace (Z.to_nat (Z.of_nat (List.length h) - 1)) with (List.length h - 1) by lia.
    destruct (nth_error h (List.length h - 1)) as [l|]; [|reflexivity].
    destruct (l =? code)%string; reflexivity.
Qed.

Lemma no_repeat_snoc (h : list string) (code : string) :
  no_repeat h ->
  (forall l, nth_error h (List.length h - 1) = Some l -> l <> code) ->
  no_repeat (h ++ [code]).
Proof.
  induction h as [|a [|b h] IH]; intros Hn Hl.
  - exact I.
  - simpl. split; [apply Hl; reflexivity | exact I].
  - destruct Hn as (Hab & Hn). change ((a :: b :: h) ++ [code]) with (a :: (b :: h) ++ [code]).
    cbn [no_repeat app]. split; [exact Hab|].
    apply IH; [exact Hn|].
    intros l E. apply Hl. cbn [List.length] in *.
    replace (S (S (List.length h)) - 1) with (S (S (List.length h) - 1)) by lia.
    exact E.
Qed.

Lemma no_repeat_remembered (h : list string) (code : string) :
  no_repeat h -> no_repeat (remembered h code).
Proof.
  intros H. unfold remembered.
  destruct (nth_error h (List.length h - 1)) as [l|] eqn:E.
  - destruct (l =? code)%string eqn:El; [exact H|].
    apply no_repeat_snoc; [exact H|].
    intros l' E'. rewrite E in E'. injection E' as <-.
    apply String.eqb_neq. exact El.
  - apply no_repeat_snoc; [exact H|]. intros l' E'. congruence.
Qed.

Lemma lift_outputLine (t : string) (d : Desk) :
  lift (outputLine t) d =
    (Ok tt,
     {| world := log [{| during := sess (world d); what := OutputText (t ++ LF) |}] (world d);
        page := page d |}).
Proof. reflexivity. Qed.

Lemma remember_run (code : string) (d : Desk) :
  remember code d =
    (Ok tt,
     {| world := world d;
        page := set_commandHistory (remembered (commandHistory (page d)) code) (page d) |}).
Proof.
  rewrite <- remember_history. destruct d as [w p]. open_page p.
  console; reflexivity.
Qed.

(** [sendReplCommand] past its first lines: the command is shown and
    remembered, and the rest runs from there. *)
Lemma sendReplCommand_run (envs : nat -> Env) (code : string) (d : Desk) :
  sendReplCommand envs code d =
    (if negb (isConnected (sess (world d))) then
       bindD (lift (outputLine "crow is not connected")) (fun _ =>
       bindD (replEditor_setValue (Some "")) (fun _ =>
       bindD (update (set_historyIndex (-1)%Z)) (fun _ =>
       update (set_currentInput ""))))
     else
       try_catchD
         (bindD (lift (send_lines envs 0 (split LF code))) (fun _ =>
          bindD (update (set_historyIndex (-1)%Z)) (fun _ =>
          bindD (update (set_currentInput "")) (fun _ =>
          replEditor_setValue (Some "")))))
         (fun error => lift (outputLine ("Error: " ++ error))))
      {| world := log [{| during := sess (world d);
                          what := OutputText ((">> " ++ code) ++ LF) |}] (world d);
         page := set_commandHistory (remembered (commandHistory (page d)) code) (page d) |}.
Proof.
  unfold sendReplCommand.
  unfold bindD at 1. rewrite lift_outputLine.
  unfold bindD at 1. rewrite remember_run.
  unfold bindD at 1. cbn [lift this world page]. rewrite sess_log. reflexivity.
Qed.

Ltac page_fields :=
  cbn [set_replEditor set_commandHistory set_historyIndex set_currentInput
       set_isNavigatingHistory set_currentFile set_replInput_value
       set_boweryModal_display
       world page replEditor replAutocompleteEnabled commandHistory historyIndex
       currentInput isNavigatingHistory editorVisible currentFile
       replInput_value boweryModal_display fst snd] in *.

Ltac trace_read :=
  rewrite ?sess_log, ?written_log, ?shown_log, ?log_log;
  rewrite ?written_app, ?shown_app; cbn [written shown what app];
  rewrite ?written_app, ?shown_app; cbn [written shown what app];
  rewrite ?app_nil_r, ?string_app_nil_r; repeat split;
  repeat (rewrite string_app_assoc; simpl); try reflexivity.

(** X16.  A command sent from the console while the session is disconnected
    is written nowhere: it is shown and remembered, the page says that crow
    is not connected, and the editor is emptied for the next command. *)
Theorem send_while_disconnected :
  forall (envs : nat -> Env) (code : string) (d : Desk),
    replEditor (page d) <> None ->
    isConnected (sess (world d)) = false ->
    let r := sendReplCommand envs code d in
    fst r = Ok tt /\
    sess (world (snd r)) = sess (world d) /\
    written (trace (world (snd r))) = written (trace (world d)) /\
    shown (trace (world (snd r))) =
      (shown (trace (world d)) ++
       ">> " ++ code ++ LF ++ "crow is not connected" ++ LF)%string /\
    commandHistory (page (snd r)) = remembered (commandHistory (page d)) code /\
    replEditor (page (snd r)) = Some ""%string /\
    historyIndex (page (snd r)) = (-1)%Z /\
    currentInput (page (snd r)) = ""%string.
Proof.
  intros envs code d He Hc. cbv zeta. rewrite sendReplCommand_run, Hc.
  destruct d as [w p]. open_page p. page_fields.
  destruct re as [v|]; [clear He|congruence].
  cbn [negb]. console; trace_read.
Qed.

Lemma send_while_disconnected_witness :
  let r := sendReplCommand (fun _ => quiet) "print(1)" ready in
  written (trace (world (snd r))) = [] /\
  commandHistory (page (snd r)) = ["print(1)"%string] /\
  replEditor (page (snd r)) = Some ""%string.
Proof.
  destruct (send_while_disconnected (fun _ => quiet) "print(1)" ready
              ltac:(discriminate) ltac:(reflexivity))
    as (_ & _ & Hw & _ & Hh & He & _).
  exact (conj Hw (conj Hh He)).
Defined.

(** X17.  A command sent from the console while the session is connected
    goes to the writer line by line, each line ended by CRLF; the command
    is shown and remembered, and the editor is emptied with the browsing of
    the history ended. *)
Theorem send_while_connected :
  forall (envs : nat -> Env) (code : string) (d : Desk) (wr : Writer),
    replEditor (page d) <> None ->
    isConnected (sess (world d)) = true ->
    writer (sess (world d)) = Some wr ->
    (forall k, write_ (envs k) = Resolved tt) ->
    let r := sendReplCommand envs code d in
    fst r = Ok tt /\
    sess (world (snd r)) = sess (world d) /\
    written (trace (world (snd r))) =
      written (trace (world d)) ++ map (fun l => (l ++ CRLF)%string) (split LF code) /\
    shown (trace (world (snd r))) = (shown (trace (world d)) ++ ">> " ++ code ++ LF)%string /\
    commandHistory (page (snd r)) = remembered (commandHistory (page d)) code /\
    replEditor (page (snd r)) = Some ""%string /\
    historyIndex (page (snd r)) = (-1)%Z /\
    currentInput (page (snd r)) = ""%string.
Proof.
  intros envs code d wr He Hc Hw Hok. cbv zeta.
  pose proof (sendReplCommand_run envs code d) as E. rewrite Hc in E.
  cbn [negb] in E. unfold try_catchD in E. unfold bindD at 1 in E.
  unfold lift at 1 in E. cbn [world page] in E.
  rewrite (send_lines_ok envs _ 0 _ wr) in E by (rewrite ?sess_log; assumption).
  rewrite sess_log, log_log in E. rewrite E. clear E.
  destruct d as [w p]. open_page p. page_fields.
  destruct re as [v|]; [clear He|congruence].
  console; rewrite ?sess_log, ?written_log, ?shown_log, ?written_app, ?shown_app,
             ?written_lines, ?shown_lines;
    cbn [written shown what app]; rewrite ?string_app_nil_r; repeat split;
    repeat (rewrite string_app_assoc; simpl); reflexivity.
Qed.

Lemma send_while_connected_witness :
  let d := desk_run [Toggle quiet] ready in
  let r := sendReplCommand (fun _ => quiet) two_lines d in
  written (trace (world (snd r))) =
    written (trace (world d)) ++ [("x = 1" ++ CRLF)%string; ("y = 2" ++ CRLF)%string] /\
  replEditor (page (snd r)) = Some ""%string.
Proof.
  destruct (send_while_connected (fun _ => quiet) two_lines
              (desk_run [Toggle quiet] ready) 1
              ltac:(discriminate) ltac:(evaluated) ltac:(evaluated) ltac:(evaluated))
    as (_ & _ & Hw & _ & _ & He & _).
  exact (conj Hw He).
Defined.

(** X18.  When the platform rejects a write of a command sent from the
    console, the call still returns: the lines up to the rejected one went
    to the writer, the page shows the error, and the command stays in the
    editor with the place in the history kept. *)
Theorem send_rejected_keeps_command :
  forall (envs : nat -> Env) (code : string) (d : Desk) (wr : Writer)
         (n : nat) (message : string),
    isConnected (sess (world d)) = true ->
    writer (sess (world d)) = Some wr ->
    n < List.length (split LF code) ->
    (forall k, k < n -> write_ (envs k) = Resolved tt) ->
    write_ (envs n) = Rejected message ->
    let r := sendReplCommand envs code d in
    fst r = Ok tt /\
    sess (world (snd r)) = sess (world d) /\
    written (trace (world (snd r))) =
      written (trace (world d)) ++
      map (fun l => (l ++ CRLF)%string) (firstn (S n) (split LF code)) /\
    shown (trace (world (snd r))) =
      (shown (trace (world d)) ++ ">> " ++ code ++ LF ++ "Error: " ++ message ++ LF)%string /\
    commandHistory (page (snd r)) = remembered (commandHistory (page d)) code /\
    replEditor (page (snd r)) = replEditor (page d) /\
    historyIndex (page (snd r)) = historyIndex (page d) /\
    currentInput (page (snd r)) = currentInput (page d).
Proof.
  intros envs code d wr n message Hc Hw Hn Hok Hbad. cbv zeta.
  pose proof (sendReplCommand_run envs code d) as R. rewrite Hc in R.
  cbn [negb] in R. unfold try_catchD in R. unfold bindD at 1 in R.
  unfold lift at 1 in R. cbn [world page] in R.
  destruct (send_lines_fails envs (split LF code) 0 n
              (log [{| during := sess (world d);
                       what := OutputText ((">> " ++ code) ++ LF) |}] (world d))
              wr message) as (ext & E & Ew & Es);
    rewrite ?sess_log; try assumption; try lia.
  { intros k _ Hk. apply Hok, Hk. }
  rewrite E, log_log in R. rewrite Nat.sub_0_r in Ew.
  cbn [lift outputLine emit world page fst snd] in R. rewrite R. clear R E.
  destruct d as [w p]. open_page p. page_fields.
  rewrite ?sess_log, ?log_log, ?written_log, ?shown_log, ?written_app, ?shown_app, Ew, Es.
  cbn [written shown what app]. rewrite ?app_nil_r, ?string_app_nil_r. repeat split.
  repeat (rewrite string_app_assoc; simpl). reflexivity.
Qed.

Lemma send_rejected_keeps_command_witness :
  let d := snd (replEditor_typed two_lines (desk_run [Toggle quiet] ready)) in
  let r := sendReplCommand (failing_at 1 "The device has been lost.") two_lines d in
  fst r = Ok tt /\
  written (trace (world (snd r))) =
    written (trace (world d)) ++ [("x = 1" ++ CRLF)%string; ("y = 2" ++ CRLF)%string] /\
  replEditor (page (snd r)) = Some two_lines.
Proof.
  destruct (send_rejected_keeps_command (failing_at 1 "The device has been lost.") two_lines
              (snd (replEditor_typed two_lines (desk_run [Toggle quiet] ready))) 1 1
              "The device has been lost."
              ltac:(evaluated) ltac:(evaluated) ltac:(vm_compute; lia))
    as (Hr & _ & Hw & _ & _ & He & _).
  - intros k Hk. destruct k as [|k]; [reflexivity | lia].
  - reflexivity.
  - exact (conj Hr (conj Hw He)).
Defined.

(** The steps of a method at the desk, with [remember] kept whole. *)
Ltac desk_kept :=
  cbv beta iota delta
    [bindD retD throwD try_catchD the_page update lift awaitD
     replEditor_getValue replEditor_setValue replEditor_changed
     replEditor_typed replInput_assign shown_entry
     set_replEditor set_commandHistory set_historyIndex set_currentInput
     set_isNavigatingHistory set_currentFile set_replInput_value
     set_boweryModal_display
     world page replEditor replAutocompleteEnabled commandHistory historyIndex
     currentInput isNavigatingHistory editorVisible currentFile
     replInput_value boweryModal_display fst snd negb andb orb] in *.

Ltac console_kept :=
  repeat (progress
            (desk_kept; rewrite ?remember_run; session_steps;
             unfold history_length in *; zcases; try lia;
             repeat match goal with
                    | |- context [isConnected ?c] =>
                        is_var c; fail 1
                    | |- context [if isConnected ?c then _ else _] =>
                        destruct (isConnected c)
                    | |- context [if negb (isConnected ?c) then _ else _] =>
                        destruct (isConnected c)
                    | |- context [String.eqb ?a ?b] => destruct (String.eqb a b)
                    | |- context [match history_at ?h ?j with _ => _ end] =>
                        destruct (history_at h j)
                    | |- context [if ?b then _ else _] => is_var b; destruct b
                    end)).

Lemma step_history (a : DeskAction) (d : Desk) :
  commandHistory (page (desk_step d a)) = commandHistory (page d) \/
  exists code,
    commandHistory (page (desk_step d a)) = remembered (commandHistory (page d)) code.
Proof.
  destruct d as [w p]. open_page p. destruct re as [v|].
  all: destruct a as [a|env|direction|envs code|t|envs e|t]; cbn [desk_step].
  all: try (left; reflexivity).
  all: try (left; unfold navigateReplHistory; console; reflexivity).
  all: try (right; exists code; rewrite sendReplCommand_run; console; reflexivity).
  all: destruct e as [k sh on]; unfold handleReplInput; cbn [key shiftKey onReplInput];
    console_kept;
    first [left; reflexivity | right; eexists; page_fields; reflexivity].
Qed.

Lemma remembered_grows (h : list string) (code : string) :
  exists more, remembered h code = h ++ more.
Proof.
  unfold remembered. destruct (nth_error h (List.length h - 1)) as [l|].
  - destruct (l =? code)%string; [exists []; rewrite app_nil_r | exists [code]]; reflexivity.
  - exists [code]. reflexivity.
Qed.

(** X19.  Whatever is done at the desk (the actions of [DeskAction]), the
    history of the console only grows at its end, and a command that
    repeats the one before it is not added: a history without such a
    repetition stays without one. *)
Theorem history_never_repeats :
  forall (acts : list DeskAction) (d : Desk),
    no_repeat (commandHistory (page d)) ->
    no_repeat (commandHistory (page (desk_run acts d))) /\
    exists more,
      commandHistory (page (desk_run acts d)) = commandHistory (page d) ++ more.
Proof.
  induction acts as [|a acts IH]; intros d H.
  - split; [exact H|]. exists []. rewrite app_nil_r. reflexivity.
  - change (desk_run (a :: acts) d) with (desk_run acts (desk_step d a)).
    assert (H' : no_repeat (commandHistory (page (desk_step d a))) /\
                 exists more, commandHistory (page (desk_step d a)) =
                              commandHistory (page d) ++ more).
    { destruct (step_history a d) as [E|(code & E)]; rewrite E.
      - split; [exact H|]. exists []. rewrite app_nil_r. reflexivity.
      - split; [apply no_repeat_remembered, H | apply remembered_grows]. }
    destruct H' as (Hn & more & Hm).
    destruct (IH _ Hn) as (Hn' & more' & Hm').
    split; [exact Hn'|]. exists (more ++ more'). rewrite Hm', Hm, app_assoc. reflexivity.
Qed.

Lemma history_never_repeats_witness :
  no_repeat
    (commandHistory
       (page (desk_run [Send (fun _ => quiet) "a"; Send (fun _ => quiet) "a";
                        Toggle quiet; Send (fun _ => quiet) "b";
                        Send (fun _ => quiet) "a"] ready))).
Proof.
  apply (history_never_repeats
           [Send (fun _ => quiet) "a"; Send (fun _ => quiet) "a";
            Toggle quiet; Send (fun _ => quiet) "b";
            Send (fun _ => quiet) "a"] ready).
  exact I.
Defined.

(** *** The textarea and the editor of the console *)

Ltac console_present :=
  repeat (progress
            (desk; session_steps; unfold history_length in *; zcases; try lia;
             repeat match goal with
                    | |- context [isConnected ?c] =>
                        is_var c; fail 1
                    | |- context [if isConnected ?c then _ else _] =>
                        destruct (isConnected c)
                    | |- context [if negb (isConnected ?c) then _ else _] =>
                        destruct (isConnected c)
                    | |- context [String.eqb ?a ?b] => destruct (String.eqb a b)
                    | |- context [match history_at ?h ?j with _ => _ end] =>
                        let E := fresh "E" in
                        destruct (history_at h j) eqn:E;
                        [|exfalso; revert E; apply history_at_some; lia]
                    | |- context [if ?b then _ else _] => is_var b; destruct b
                    end)).

Ltac swapped_now :=
  unfold swapped; page_fields; repeat split; try reflexivity; try lia.

(** X20.  The textarea of the console does with its keys what the editor
    does with its commands: from pages that differ only in where the text
    is, arrow up and arrow down on the textarea and a step through the
    history on the editor, or Enter on the textarea and the sending of the
    trimmed text on the editor, leave the same session and trace, and pages
    that again differ only in where the text is. *)
Theorem textarea_follows_editor :
  forall (envs : nat -> Env) (w : World) (p q : Page) (shift : bool),
    page_ok p ->
    swapped p q ->
    let on_editor (m : D unit) := snd (m {| world := w; page := p |}) in
    let on_textarea (k : string) (s : bool) :=
      handleReplInput envs {| key := k; shiftKey := s; onReplInput := true |}
                      {| world := w; page := q |} in
    let agree (d : Desk) (r : result bool * Desk) :=
      fst r = Ok true /\ world (snd r) = world d /\ swapped (page d) (page (snd r)) in
    agree (on_editor (navigateReplHistory "up")) (on_textarea "ArrowUp" shift) /\
    agree (on_editor (navigateReplHistory "down")) (on_textarea "ArrowDown" shift) /\
    (trim (replInput_value q) <> ""%string ->
     agree (on_editor (sendReplCommand envs (trim (replInput_value q))))
           (on_textarea "Enter" false)).
Proof.
  intros envs w p q shift (Hi & Hre & Hn) (Ee & Eh & Ei & Ec). cbv zeta.
  open_page p. open_page q. page_fields. subst. clear Hre.
  split; [|split].
  - unfold navigateReplHistory, handleReplInput. cbn [key shiftKey onReplInput String.eqb Ascii.eqb Bool.eqb negb].
    console_present; swapped_now.
  - unfold navigateReplHistory, handleReplInput. cbn [key shiftKey onReplInput String.eqb Ascii.eqb Bool.eqb negb].
    console_present; swapped_now.
  - intros Hcode. apply String.eqb_neq in Hcode.
    unfold sendReplCommand, handleReplInput.
    cbn [key shiftKey onReplInput String.eqb Ascii.eqb Bool.eqb negb andb].
    desk. rewrite Hcode.
    console_present; swapped_now.
Qed.

Lemma textarea_follows_editor_witness :
  let p := set_commandHistory ["a"; "b"]%string (set_replEditor (Some "x"%string) new_Page) in
  let q := set_commandHistory ["a"; "b"]%string (set_replInput_value "x" new_Page) in
  let d := snd (navigateReplHistory "up" {| world := start; page := p |}) in
  let r := handleReplInput (fun _ => quiet)
                           {| key := "ArrowUp"; shiftKey := false; onReplInput := true |}
                           {| world := start; page := q |} in
  replEditor (page d) = Some "b"%string /\
  fst r = Ok true /\ world (snd r) = world d /\ swapped (page d) (page (snd r)).
Proof.
  split; [reflexivity|].
  apply (textarea_follows_editor (fun _ => quiet) start
           (set_commandHistory ["a"; "b"]%string (set_replEditor (Some "x"%string) new_Page))
           (set_commandHistory ["a"; "b"]%string (set_replInput_value "x" new_Page))
           false).
  - unfold page_ok. split; [cbn; lia | split; [discriminate | reflexivity]].
  - repeat split.
Defined.

(** *** What the page is told of the connection *)

Lemma reported_app (t u : list Obs) :
  reported (t ++ u) =
    match rev (connection_events u) with
    | (connected, _) :: _ => connected
    | [] => reported t
    end.
Proof.
  unfold reported. rewrite connection_events_app, rev_app_distr.
  destruct (rev (connection_events u)) as [|[c e] l]; reflexivity.
Qed.

Ltac reported_now :=
  repeat (rewrite reported_app; rewrite ?connection_events_done;
          cbn [connection_events what rev app]).

Lemma step_truthful (a : Action) (w : World) :
  pipes_recorded (sess w) = true ->
  truthful w ->
  match a with Connect _ => isConnected (sess w) = false | _ => True end ->
  truthful (step w a).
Proof.
  unfold truthful. intros Hp (Ho & Hr) Ha. cbv [pipes_recorded present] in Hp.
  revert Hp Ho Hr Ha. calm_cases a w;
    intros; reported_now; simpl;
    try discriminate; split; congruence.
Qed.

Lemma step_sound (a : Action) (w : World) :
  sound w ->
  match a with Connect _ => isConnected (sess w) = false | _ => True end ->
  sound (step w a).
Proof.
  intros (Hp & Ht) Ha. split.
  - apply step_pipes_recorded, Hp.
  - apply step_truthful; assumption.
Qed.

Lemma log_sound (o : list Obs) (w : World) :
  connection_events o = [] -> sound w -> sound (log o w).
Proof.
  intros Ho (Hp & Hc & Hr). unfold sound, truthful. rewrite sess_log.
  destruct w as [d tr ls fr]. cbv [log trace] in *.
  rewrite reported_app, Ho. repeat split; assumption.
Qed.

Lemma toggleConnection_sound (env : Env) (w : World) :
  sound w -> sound (snd (toggleConnection env w)).
Proof.
  intros H. unfold toggleConnection, this, bind.
  destruct (isConnected (sess w)) eqn:Hc.
  - unfold druid_disconnect, bind.
    pose proof (step_sound (Disconnect env) w H I) as Hs. cbn [step] in Hs.
    destruct (disconnect_ends_idle env w (proj1 H)) as (Hok & _).
    destruct (disconnect env w) as [[[]|m] w1]; [|discriminate Hok].
    cbn [snd] in Hs. unfold outputLine, emit. cbn [snd].
    apply log_sound; [reflexivity | exact Hs].
  - unfold druid_connect, bind, outputLine, emit.
    set (w0 := log [{| during := sess w;
                       what := OutputText ("Connecting to crow..." ++ LF) |}] w).
    assert (H0 : sound w0) by (apply log_sound; [reflexivity | exact H]).
    assert (Hc0 : isConnected (sess w0) = false) by (unfold w0; rewrite sess_log; exact Hc).
    pose proof (step_sound (Connect env) w0 H0 Hc0) as Hs. cbn [step] in Hs.
    pose proof (connect_returns env w0) as Hr.
    destruct (connect env w0) as [[b|m] w1]; [|discriminate Hr].
    cbn [snd] in Hs. destruct b; cbn [snd ret].
    + apply log_sound; [reflexivity | exact Hs].
    + exact Hs.
Qed.

Lemma writeLine_sound (env : Env) (line : string) (w : World) :
  sound w -> sound (snd (writeLine env line w)).
Proof. intros H. exact (step_sound (WriteLine env line) w H I). Qed.

Lemma send_lines_sound (envs : nat -> Env) (lines : list string) :
  forall (k : nat) (w : World), sound w -> sound (snd (send_lines envs k lines w)).
Proof.
  induction lines as [|line rest IH]; intros k w H; cbn [send_lines].
  - exact H.
  - unfold bind at 1.
    pose proof (writeLine_sound (envs k) line w H) as Hs.
    destruct (writeLine (envs k) line w) as [[[]|m] w1]; cbn [snd] in *; [|exact Hs].
    unfold bind at 1. unfold delay, emit.
    apply IH. apply log_sound; [reflexivity | exact Hs].
Qed.

Section Keeping.
Variable Inv : World -> Prop.

Lemma keeps_bind {A B} (m : D A) (k : A -> D B) :
  keeps Inv m -> (forall a, keeps Inv (k a)) -> keeps Inv (bindD m k).
Proof.
  intros Hm Hk d H. unfold bindD. specialize (Hm d H).
  destruct (m d) as [[a|e] d']; [apply Hk|]; exact Hm.
Qed.

Lemma keeps_try_catch {A} (body : D A) (handler : string -> D A) :
  keeps Inv body -> (forall e, keeps Inv (handler e)) -> keeps Inv (try_catchD body handler).
Proof.
  intros Hm Hk d H. unfold try_catchD. specialize (Hm d H).
  destruct (body d) as [[a|e] d']; [|apply Hk]; exact Hm.
Qed.

Lemma keeps_lift {A} (m : M A) :
  (forall w, Inv w -> Inv (snd (m w))) -> keeps Inv (lift m).
Proof.
  intros Hm d H. unfold lift. specialize (Hm _ H).
  destruct (m (world d)) as [r w']. exact Hm.
Qed.

Lemma keeps_ret {A} (a : A) : keeps Inv (retD a).
Proof. intros d H. exact H. Qed.

Lemma keeps_throw {A} (e : string) : keeps Inv (@throwD A e).
Proof. intros d H. exact H. Qed.

Lemma keeps_the_page : keeps Inv the_page.
Proof. intros d H. exact H. Qed.

Lemma keeps_update (f : Page -> Page) : keeps Inv (update f).
Proof. intros d H. exact H. Qed.
End Keeping.

Ltac keeping :=
  repeat first
    [ apply keeps_ret | apply keeps_throw | apply keeps_the_page | apply keeps_update
    | apply keeps_bind; [|intros ?]
    | apply keeps_try_catch; [|intros ?]
    | match goal with
      | |- keeps _ (if ?b then _ else _) => destruct b
      | |- keeps _ (match ?x with _ => _ end) => destruct x
      end
    | progress unfold remember, replEditor_setValue, replEditor_getValue,
        replEditor_changed, replEditor_typed, replInput_assign ].

Lemma outputLine_sound (t : string) (w : World) : sound w -> sound (snd (outputLine t w)).
Proof. intros H. apply (log_sound _ w); [reflexivity | exact H]. Qed.

Lemma this_sound (w : World) : sound w -> sound (snd (this w)).
Proof. intros H. exact H. Qed.

Ltac keeping_sound :=
  keeping;
  try (apply keeps_lift; intros ? ?;
       first [ apply outputLine_sound | apply send_lines_sound | apply this_sound ];
       assumption).

Lemma navigateReplHistory_sound (direction : string) :
  keeps sound (navigateReplHistory direction).
Proof. unfold navigateReplHistory. keeping_sound. Qed.

Lemma sendReplCommand_sound (envs : nat -> Env) (code : string) :
  keeps sound (sendReplCommand envs code).
Proof. unfold sendReplCommand. keeping_sound. Qed.

Lemma handleReplInput_sound (envs : nat -> Env) (e : KeyEvent) :
  keeps sound (handleReplInput envs e).
Proof. unfold handleReplInput. keeping_sound. Qed.

Lemma desk_step_sound (a : DeskAction) (d : Desk) :
  through_the_page a = true -> sound (world d) -> sound (world (desk_step d a)).
Proof.
  intros Ha H. destruct a as [a|env|direction|envs code|t|envs e|t]; cbn [desk_step].
  - cbn [in_world world]. apply step_sound; [exact H|].
    destruct a; [discriminate Ha | exact I ..].
  - cbn [in_world world]. apply toggleConnection_sound, H.
  - apply navigateReplHistory_sound, H.
  - apply sendReplCommand_sound, H.
  - assert (K : keeps sound (replEditor_typed t)) by keeping_sound. apply K, H.
  - apply handleReplInput_sound, H.
  - exact H.
Qed.



(** *** Scripts loaded into the editor *)

Lemma length_string_app (a b : string) :
  String.length (a ++ b) = String.length a + String.length b.
Proof. induction a as [|x a IH]; simpl; [reflexivity|]. rewrite IH. reflexivity. Qed.

Lemma substring_split (n : nat) (s : string) :
  n <= String.length s -> s = (substring 0 n s ++ substring_from n s)%string.
Proof.
  unfold substring_from. revert n. induction s as [|x s IH]; intros n H.
  - destruct n; [reflexivity | simpl in H; lia].
  - destruct n as [|n].
    + cbn [substring String.append]. rewrite Nat.sub_0_r.
      change (String.length (String x s)) with (S (String.length s)).
      cbn [substring]. rewrite substring_all. reflexivity.
    + simpl in H. cbn [substring String.append String.length Nat.sub].
      rewrite <- IH by lia. reflexivity.
Qed.

(** [name.endsWith(suffix)] holds of the names that are a text followed by
    the suffix, and of no other. *)
Lemma endsWith_spec (suffix s : string) :
  endsWith suffix s = true <-> exists pre, s = (pre ++ suffix)%string.
Proof.
  unfold endsWith. split.
  - intros H. apply andb_true_iff in H as [Hl He].
    apply Nat.leb_le in Hl. apply String.eqb_eq in He.
    exists (substring 0 (String.length s - String.length suffix) s).
    rewrite <- He at 2. apply substring_split. lia.
  - intros (pre & ->). rewrite length_string_app. apply andb_true_iff. split.
    + apply Nat.leb_le. lia.
    + replace (String.length pre + String.length suffix - String.length suffix)
        with (String.length pre) by lia.
      rewrite substring_from_app. apply String.eqb_refl.
Qed.

(** The steps of the methods that load a script. *)
Ltac scripts :=
  cbv beta iota delta
    [bindD retD throwD try_catchD the_page update lift awaitD
     set_replEditor set_commandHistory set_historyIndex set_currentInput
     set_isNavigatingHistory set_currentFile set_replInput_value
     set_boweryModal_display
     world page replEditor replAutocompleteEnabled commandHistory historyIndex
     currentInput isNavigatingHistory editorVisible currentFile
     replInput_value boweryModal_display
     editor_setValue set_scriptName setModified outputLine emit log app this
     await ret throw bind try_catch sess present
     druid crow trace loops fresh editor scriptName scriptModified
     name text ok status response_text fst snd negb andb orb] in *.

(** X22.  A [.lua] file dropped on the editor pane whose text can be read
    is loaded: the editor holds its text, the script has its name and no
    file handle, and it is not marked modified although the editor's
    listener marked it so; nothing is written to the device. *)
Theorem dropped_script_is_loaded :
  forall (file : File) (rest : list File) (d : Desk) (pre t : string),
    name file = (pre ++ ".lua")%string ->
    text file = Resolved t ->
    editor (druid (world d)) <> None ->
    let r := drop_on_editorPane (file :: rest) d in
    fst r = Ok tt /\
    editor (druid (world (snd r))) = Some t /\
    scriptName (druid (world (snd r))) = name file /\
    scriptModified (druid (world (snd r))) = false /\
    currentFile (page (snd r)) = None /\
    sess (world (snd r)) = sess (world d) /\
    written (trace (world (snd r))) = written (trace (world d)) /\
    shown (trace (world (snd r))) =
      (shown (trace (world d)) ++ "Loaded " ++ name file ++ " into editor" ++ LF)%string.
Proof.
  intros file rest d pre t Hn Ht He. cbv zeta.
  assert (El : endsWith ".lua" (name file) = true)
    by (apply endsWith_spec; exists pre; exact Hn).
  unfold drop_on_editorPane. rewrite El. unfold loadFileFromDrop.
  destruct file as [n tx]. destruct d as [w p]. open_world w. open_page p.
  cbn [name text world druid editor] in *. subst tx.
  destruct ed as [v|]; [clear He|congruence].
  scripts. rewrite written_app, shown_app. cbn [written shown what].
  rewrite app_nil_r, string_app_nil_r. repeat split.
  repeat (rewrite string_app_assoc; simpl). reflexivity.
Qed.

Lemma dropped_script_is_loaded_witness :
  let file := {| name := "clock.lua"; text := Resolved two_lines |} in
  let r := drop_on_editorPane [file; {| name := "notes.txt"; text := Resolved "" |}] ready in
  editor (druid (world (snd r))) = Some two_lines /\
  scriptName (druid (world (snd r))) = "clock.lua"%string /\
  scriptModified (druid (world (snd r))) = false.
Proof.
  destruct (dropped_script_is_loaded
              {| name := "clock.lua"; text := Resolved two_lines |}
              [{| name := "notes.txt"; text := Resolved "" |}] ready "clock" two_lines
              ltac:(reflexivity) ltac:(reflexivity) ltac:(discriminate))
    as (_ & He & Hn & Hm & _).
  exact (conj He (conj Hn Hm)).
Defined.

(** X23.  A first file whose name does not end in [.lua] is refused on
    either pane: the drop shows the error and nothing else happens, the
    script, the session and the page are as they were and nothing is
    written. *)
Theorem other_files_are_refused :
  forall (envs : nat -> Env) (file : File) (rest : list File) (d : Desk),
    (forall pre, name file <> (pre ++ ".lua")%string) ->
    let refused :=
      (Ok tt,
       {| world := log [{| during := sess (world d);
                           what := OutputText (only_lua ++ LF) |}] (world d);
          page := page d |}) in
    drop_on_editorPane (file :: rest) d = refused /\
    drop_on_replPane envs (file :: rest) d = refused.
Proof.
  intros envs file rest d Hn. cbv zeta.
  assert (El : endsWith ".lua" (name file) = false).
  { destruct (endsWith ".lua" (name file)) eqn:E; [|reflexivity].
    apply endsWith_spec in E as (pre & E). destruct (Hn pre E). }
  unfold drop_on_editorPane, drop_on_replPane. rewrite El. split; reflexivity.
Qed.

Lemma other_files_are_refused_witness :
  let file := {| name := "notes.txt"; text := Resolved two_lines |} in
  written (trace (world (snd (drop_on_replPane (fun _ => quiet) [file]
                                               (desk_run [Toggle quiet] ready))))) =
  written (trace (world (desk_run [Toggle quiet] ready))).
Proof.
  assert (Hn : forall pre, "notes.txt"%string <> (pre ++ ".lua")%string).
  { intros pre E.
    assert (H : endsWith ".lua" "notes.txt" = true)
      by (apply endsWith_spec; exists pre; exact E).
    discriminate H. }
  destruct (other_files_are_refused (fun _ => quiet)
              {| name := "notes.txt"; text := Resolved two_lines |} []
              (desk_run [Toggle quiet] ready) Hn) as (_ & E).
  cbv zeta. rewrite E. cbn [snd world]. rewrite written_log. apply app_nil_r.
Defined.

(** X24.  A [.lua] file dropped on the editor pane whose text cannot be
    read leaves the script as it was, name and modified mark included: the
    drop shows the error and nothing else happens. *)
Theorem unreadable_drop_keeps_script :
  forall (file : File) (rest : list File) (d : Desk) (pre message : string),
    name file = (pre ++ ".lua")%string ->
    text file = Rejected message ->
    drop_on_editorPane (file :: rest) d =
      (Ok tt,
       {| world := log [{| during := sess (world d);
                           what := OutputText (("Error loading file: " ++ message) ++ LF) |}]
                       (world d);
          page := page d |}).
Proof.
  intros file rest d pre message Hn Ht.
  assert (El : endsWith ".lua" (name file) = true)
    by (apply endsWith_spec; exists pre; exact Hn).
  unfold drop_on_editorPane. rewrite El. unfold loadFileFromDrop.
  destruct file as [n tx]. cbn [name text] in *. subst tx. reflexivity.
Qed.

Lemma unreadable_drop_keeps_script_witness :
  let file := {| name := "clock.lua"; text := Rejected "The file could not be read." |} in
  druid (world (snd (drop_on_editorPane [file] ready))) = druid (world ready).
Proof.
  cbv zeta.
  rewrite (unreadable_drop_keeps_script
             {| name := "clock.lua"; text := Rejected "The file could not be read." |}
             [] ready "clock" "The file could not be read."
             ltac:(reflexivity) ltac:(reflexivity)).
  reflexivity.
Defined.

(** *** Scripts of the bowery *)

(** X25.  A script of the bowery chosen while the editor is hidden and the
    session is connected is uploaded as [uploadScript] uploads the editor's:
    the begin line, its lines cut at the line feeds, and the write-to-flash
    line; the list is closed and the script in the editor is untouched. *)
Theorem bowery_script_uploaded :
  forall (envs : nat -> Env) (response : Response) (script : Script) (d : Desk)
         (wr : Writer) (content : string),
    editorVisible (page d) = false ->
    isConnected (sess (world d)) = true ->
    writer (sess (world d)) = Some wr ->
    ok response = true ->
    response_text response = Resolved content ->
    (forall k, write_ (envs k) = Resolved tt) ->
    let r := loadBoweryScript envs (Resolved response) script d in
    fst r = Ok tt /\
    written (trace (world (snd r))) =
      written (trace (world d)) ++ upload_pattern (split LF content) "^^w" /\
    shown (trace (world (snd r))) =
      (shown (trace (world d)) ++ "Uploading " ++ script_name script ++ "..." ++ LF)%string /\
    druid (world (snd r)) = druid (world d) /\
    boweryModal_display (page (snd r)) = "none"%string.
Proof.
  intros envs response script d wr content Hv Hc Hw Hok Ht He. cbv zeta.
  destruct response as [o st tx]. destruct d as [w p]. open_page p.
  cbn [ok response_text editorVisible page world] in *. subst.
  assert (E : loadBoweryScript envs
                (Resolved {| ok := true; status := st; response_text := Resolved content |})
                script
                {| world := w;
                   page := {| replEditor := re; replAutocompleteEnabled := ae;
                              commandHistory := h; historyIndex := i; currentInput := ci;
                              isNavigatingHistory := nav; editorVisible := false;
                              currentFile := cf; replInput_value := ri;
                              boweryModal_display := bm |} |} =
              (Ok tt,
               {| world := log ([said (sess w) ("Uploading " ++ script_name script ++ "...")] ++
                                script_sent (sess w) wr (split LF content) "^^w") w;
                  page := {| replEditor := re; replAutocompleteEnabled := ae;
                             commandHistory := h; historyIndex := i; currentInput := ci;
                             isNavigatingHistory := nav; editorVisible := false;
                             currentFile := cf; replInput_value := ri;
                             boweryModal_display := "none" |} |})).
  { unfold loadBoweryScript. scripts. rewrite Hc. scripts.
    rewrite (send_script_run envs LF content "^^w" _ wr) by assumption.
    destruct w as [dr tr ls fr]. cbv [log sess druid crow trace loops fresh said].
    rewrite <- app_assoc. reflexivity. }
  rewrite E. cbn [fst snd world page boweryModal_display].
  rewrite written_log, shown_log, druid_log, written_app, shown_app, written_script,
    shown_script.
  cbn [written shown said what]. rewrite app_nil_l, string_app_nil_r.
  repeat split. repeat (rewrite string_app_assoc; simpl). reflexivity.
Qed.

Lemma bowery_script_uploaded_witness :
  let d := desk_run [Toggle quiet] ready in
  let response := {| ok := true; status := 200; response_text := Resolved two_lines |} in
  let script := {| script_name := "clock.lua"; script_path := "clock.lua";
                   script_size := 13; script_url := "https://example.org/clock.lua" |} in
  let r := loadBoweryScript (fun _ => quiet) (Resolved response) script d in
  written (trace (world (snd r))) =
    written (trace (world d)) ++
    [("^^s" ++ CRLF)%string; ("x = 1" ++ CRLF)%string; ("y = 2" ++ CRLF)%string;
     ("^^w" ++ CRLF)%string].
Proof.
  exact (proj1 (proj2 (bowery_script_uploaded (fun _ => quiet)
           {| ok := true; status := 200; response_text := Resolved two_lines |}
           {| script_name := "clock.lua"; script_path := "clock.lua";
              script_size := 13; script_url := "https://example.org/clock.lua" |}
           (desk_run [Toggle quiet] ready) 1 two_lines
           ltac:(reflexivity) ltac:(evaluated) ltac:(evaluated)
           ltac:(reflexivity) ltac:(reflexivity) ltac:(reflexivity)))).
Defined.

(** X26.  A script of the bowery chosen while the editor is shown is loaded
    into it and never sent: the editor holds the text fetched, the script
    has the name of the bowery's and no file handle, and it is not marked
    modified. *)
Theorem bowery_script_loaded :
  forall (envs : nat -> Env) (response : Response) (script : Script) (d : Desk)
         (content : string),
    editorVisible (page d) = true ->
    editor (druid (world d)) <> None ->
    ok response = true ->
    response_text response = Resolved content ->
    let r := loadBoweryScript envs (Resolved response) script d in
    fst r = Ok tt /\
    editor (druid (world (snd r))) = Some content /\
    scriptName (druid (world (snd r))) = script_name script /\
    scriptModified (druid (world (snd r))) = false /\
    currentFile (page (snd r)) = None /\
    boweryModal_display (page (snd r)) = "none"%string /\
    sess (world (snd r)) = sess (world d) /\
    trace (world (snd r)) = trace (world d).
Proof.
  intros envs response script d content Hv He Hok Ht. cbv zeta.
  destruct response as [o st tx]. destruct d as [w p]. open_world w. open_page p.
  cbn [ok response_text editorVisible page world druid editor] in *. subst.
  destruct ed as [v|]; [clear He|congruence].
  unfold loadBoweryScript. scripts. repeat split.
Qed.

Lemma bowery_script_loaded_witness :
  let d := {| world := world ready;
              page := {| replEditor := Some ""%string; replAutocompleteEnabled := true;
                         commandHistory := []; historyIndex := (-1)%Z;
                         currentInput := ""; isNavigatingHistory := false;
                         editorVisible := true; currentFile := None;
                         replInput_value := ""; boweryModal_display := "flex" |} |} in
  let response := {| ok := true; status := 200; response_text := Resolved two_lines |} in
  let script := {| script_name := "clock.lua"; script_path := "clock.lua";
                   script_size := 13; script_url := "https://example.org/clock.lua" |} in
  let r := loadBoweryScript (fun _ => quiet) (Resolved response) script d in
  editor (druid (world (snd r))) = Some two_lines /\
  scriptModified (druid (world (snd r))) = false.
Proof.
  destruct (bowery_script_loaded (fun _ => quiet)
              {| ok := true; status := 200; response_text := Resolved two_lines |}
              {| script_name := "clock.lua"; script_path := "clock.lua";
                 script_size := 13; script_url := "https://example.org/clock.lua" |}
              {| world := world ready;
                 page := {| replEditor := Some ""%string; replAutocompleteEnabled := true;
                            commandHistory := []; historyIndex := (-1)%Z;
                            currentInput := ""; isNavigatingHistory := false;
                            editorVisible := true; currentFile := None;
                            replInput_value := ""; boweryModal_display := "flex" |} |}
              two_lines
              ltac:(reflexivity) ltac:(discriminate) ltac:(reflexivity) ltac:(reflexivity))
    as (_ & He & _ & Hm & _).
  exact (conj He Hm).
Defined.

(** X27.  A script of the bowery that cannot be fetched changes nothing
    but the list, which is closed: when the request fails, when the answer
    is not a success, and when its text cannot be read, the call returns
    with the error shown, the answer's status in it in the second case;
    nothing is written and the script in the editor is untouched. *)
Theorem bowery_failure_is_shown :
  forall (envs : nat -> Env) (fetched : outcome Response) (script : Script) (d : Desk)
         (message : string),
    fetched = Rejected message \/
    (exists response,
        fetched = Resolved response /\
        ((ok response = false /\
          message = ("Failed to fetch (check connection): " ++
                     number_text (status response))%string) \/
         (ok response = true /\ response_text response = Rejected message))) ->
    loadBoweryScript envs fetched script d =
      (Ok tt,
       {| world := log [said (sess (world d)) ("Error: " ++ message)] (world d);
          page := set_boweryModal_display "none" (page d) |}).
Proof.
  intros envs fetched script d message H. destruct d as [w p].
  destruct H as [->|([o st tx] & -> & [(Ho & ->)|(Ho & Ht)])];
    cbn [ok status response_text] in *; subst;
    unfold loadBoweryScript; scripts; reflexivity.
Qed.

Lemma bowery_failure_is_shown_witness :
  let response := {| ok := false; status := 404; response_text := Resolved "Not Found" |} in
  let script := {| script_name := "clock.lua"; script_path := "clock.lua";
                   script_size := 13; script_url := "https://example.org/clock.lua" |} in
  shown (trace (world (snd (loadBoweryScript (fun _ => quiet) (Resolved response) script
                                             ready)))) =
    ("Error: Failed to fetch (check connection): 404" ++ LF)%string.
Proof.
  cbv zeta.
  rewrite (bowery_failure_is_shown (fun _ => quiet)
             (Resolved {| ok := false; status := 404; response_text := Resolved "Not Found" |})
             {| script_name := "clock.lua"; script_path := "clock.lua";
                script_size := 13; script_url := "https://example.org/clock.lua" |}
             ready "Failed to fetch (check connection): 404").
  - reflexivity.
  - right. eexists. split; [reflexivity|]. left. split; reflexivity.
Defined.

(** *** New scripts and new names *)

(** X28.  [newScript()] discards unsaved changes only when told to: on a
    modified script it does nothing unless the question is answered with
    yes; otherwise the editor holds the template under the name
    [untitled.lua], with no file handle and not marked modified.  Nothing
    is written or shown. *)
Theorem newScript_asks_before_discarding :
  forall (confirmed : bool) (d : Desk),
    editor (druid (world d)) <> None ->
    let r := newScript confirmed d in
    let kept := scriptModified (druid (world d)) && negb confirmed in
    fst r = Ok tt /\
    trace (world (snd r)) = trace (world d) /\
    sess (world (snd r)) = sess (world d) /\
    scriptModified (druid (world (snd r))) = kept /\
    (if kept then snd r = d
     else editor (druid (world (snd r))) = Some template /\
          scriptName (druid (world (snd r))) = "untitled.lua"%string /\
          currentFile (page (snd r)) = None).
Proof.
  intros confirmed d He. cbv zeta.
  destruct d as [w p]. open_world w. open_page p.
  cbn [world druid editor] in He. destruct ed as [v|]; [clear He|congruence].
  unfold newScript. destruct sm, confirmed; scripts; repeat split.
Qed.

Lemma newScript_asks_before_discarding_witness :
  let d := {| world := snd (editor_setValue two_lines (world ready)); page := page ready |} in
  scriptModified (druid (world d)) = true /\
  snd (newScript false d) = d /\
  editor (druid (world (snd (newScript true d)))) = Some template.
Proof.
  split; [reflexivity|].
  pose proof (newScript_asks_before_discarding false
                {| world := snd (editor_setValue two_lines (world ready));
                   page := page ready |} ltac:(discriminate)) as (_ & _ & _ & _ & Hkept).
  pose proof (newScript_asks_before_discarding true
                {| world := snd (editor_setValue two_lines (world ready));
                   page := page ready |} ltac:(discriminate)) as (_ & _ & _ & _ & Hnew).
  exact (conj Hkept (proj1 Hnew)).
Defined.



(** *** A lost device on the page *)

Lemma shown_done (c : CrowConnection) (l : list Reader) :
  shown (map (fun r => {| during := c; what := ReadDone r |}) l) = ""%string.
Proof. induction l; simpl; auto. Qed.

Ltac shown_now :=
  repeat (rewrite shown_app; rewrite ?shown_done; cbn [shown what]);
  rewrite ?string_app_nil_r.

Lemma read_fault_shown (r : Reader) (message : string) (env : Env) (w : World) :
  onConnectionChange (sess w) = true -> waiting r w = true ->
  shown (trace (step w (ReadError r message env))) =
    (shown (trace w) ++
     if isConnected (sess w) then LF ++ unexpected ++ LF else "")%string /\
  isConnected (sess (step w (ReadError r message env))) = false /\
  onConnectionChange (sess (step w (ReadError r message env))) = true.
Proof.
  intros Ho Hw. rewrite (step_calm w (ReadError r message env)).
  cbn [calm_action step]. rewrite Hw. clear Hw. revert Ho.
  open_world w. open_env env. cbv [calm resume_error resumed]. methods. intros ->.
  cases; shown_now; repeat split.
Qed.

(** X30.  A device lost while connected is announced once: when a
    [read()] of a waiting loop is rejected on a connected session, the
    connection observer of the page shows the line "device disconnected.
    please reconnect > " after an empty line, and the session is
    disconnected; a read rejected after that shows nothing more. *)
Theorem lost_device_is_announced_once :
  forall (r r' : Reader) (message message' : string) (env env' : Env) (w : World),
    isConnected (sess w) = true ->
    onConnectionChange (sess w) = true ->
    waiting r w = true ->
    let w' := step w (ReadError r message env) in
    shown (trace w') = (shown (trace w) ++ LF ++ unexpected ++ LF)%string /\
    isConnected (sess w') = false /\
    shown (trace (step w' (ReadError r' message' env'))) = shown (trace w').
Proof.
  intros r r' message message' env env' w Hc Ho Hw. cbv zeta.
  destruct (read_fault_shown r message env w Ho Hw) as (Hs & Hc' & Ho').
  rewrite Hc in Hs. split; [exact Hs|]. split; [exact Hc'|].
  set (w1 := step w (ReadError r message env)) in *.
  destruct (waiting r' w1) eqn:Hw'.
  - destruct (read_fault_shown r' message' env' w1 Ho' Hw') as (Hs' & _).
    rewrite Hc' in Hs'. rewrite Hs'. apply string_app_nil_r.
  - cbn [step]. rewrite Hw'. reflexivity.
Qed.

Lemma lost_device_is_announced_once_witness :
  let w := run [Connect quiet] start in
  let w' := step w (ReadError 0 "The device has been lost." lost) in
  shown (trace w') = (shown (trace w) ++ LF ++ unexpected ++ LF)%string /\
  isConnected (sess w') = false /\
  shown (trace (step w' (ReadError 0 "The device has been lost." lost))) = shown (trace w').
Proof.
  apply (lost_device_is_announced_once 0 0 "The device has been lost."
           "The device has been lost." lost lost (run [Connect quiet] start));
    evaluated.
Defined.
